(** * EV GIS Prospector: the form controller, the retrying AI client and the
      Leaflet marker renderer of [src/index.js]

    The development embeds the three parts of [index.js] that carry logic:

    - [App]'s event handlers ([handleInputChange], [handleSubmit]) and the
      client [callGeminiWithRetry], written in a small monad that threads
      the React state, a log of the effects the handlers perform, and the
      errors they throw;
    - the body of [RealMap]'s [useEffect], over a store of Leaflet objects
      (markers are shared between [markersRef.current] and the map, so they
      live in a heap and are named by their Leaflet id);
    - the conditions under which [App] renders the three overlays.

    JavaScript strings are sequences of UTF-16 code units, numbers are
    binary64 floats.  A reply of the AI service that parses is taken to
    have the shape the request's [responseSchema] asks for. *)

From Stdlib Require Import ZArith NArith Ascii String DecimalString.
From Stdlib Require Import Floats.PrimFloat.
From stdpp Require Import base option list gmap.

Set Default Proof Using "Type".
(* A decimal literal denotes the nearest binary64 value, as in JavaScript. *)
Set Warnings "-inexact-float,-clear-no-such-hyp".

(** ** JavaScript strings *)

Module JS.

(** A string is its sequence of UTF-16 code units. *)
Definition jsstring := list N.

(** A source literal (ASCII only in [index.js]). *)
Definition lit (s : string) : jsstring :=
  N_of_ascii <$> list_ascii_of_string s.
Arguments lit s%_string.

(** ECMAScript [WhiteSpace] and [LineTerminator] code points, the ones
    [String.prototype.trim] strips. *)
Definition is_white_space (c : N) : bool :=
  (   (c =? 0x0009) || (c =? 0x000B) || (c =? 0x000C) || (c =? 0x0020)
   || (c =? 0x00A0) || (c =? 0xFEFF)
   || (c =? 0x1680) || ((0x2000 <=? c) && (c <=? 0x200A))
   || (c =? 0x202F) || (c =? 0x205F) || (c =? 0x3000)
   || (c =? 0x000A) || (c =? 0x000D) || (c =? 0x2028) || (c =? 0x2029))%N.

Fixpoint trimStart (s : jsstring) : jsstring :=
  match s with
  | c :: s' => if is_white_space c then trimStart s' else s
  | [] => []
  end.

Definition trimEnd (s : jsstring) : jsstring :=
  reverse (trimStart (reverse s)).

(** [s.trim()] *)
Definition trim (s : jsstring) : jsstring := trimEnd (trimStart s).

(** [ToBoolean] of a string: only the empty string is falsy. *)
Definition truthy (s : jsstring) : bool :=
  match s with [] => false | _ :: _ => true end.

(** [p] is a prefix of [s]; on success the rest of [s]. *)
Fixpoint strip_prefix (p s : jsstring) : option jsstring :=
  match p, s with
  | [], _ => Some s
  | _ :: _, [] => None
  | a :: p', b :: s' => if (a =? b)%N then strip_prefix p' s' else None
  end.

(** [s.replace(pat, rep)] for a string pattern and a replacement without
    [$]: only the first occurrence of [pat] is replaced. *)
Fixpoint replace (pat rep s : jsstring) : jsstring :=
  match strip_prefix pat s with
  | Some rest => rep ++ rest
  | None =>
      match s with
      | [] => []
      | c :: s' => c :: replace pat rep s'
      end
  end.

(** [s.includes(needle)] *)
Fixpoint includes (needle s : jsstring) : bool :=
  match strip_prefix needle s with
  | Some _ => true
  | None =>
      match s with
      | [] => false
      | _ :: s' => includes needle s'
      end
  end.

(** [String(n)] for a non-negative integer. *)
Definition of_N (n : N) : jsstring :=
  lit (NilEmpty.string_of_uint (N.to_uint n)).

(** The three error constructors the program meets. *)
Inductive ErrorName := Error | TypeError | SyntaxError.

Record error := mkError { name : ErrorName; message : jsstring }.

End JS.

Abbreviation jsstring := JS.jsstring.
Abbreviation js := JS.lit.

(** ** Data model *)

(** [cityCenter: {lat, lng}] *)
Module CityCenter.
Record t := mk { lat : float; lng : float }.
End CityCenter.

(** One entry of [sites]. *)
Module Site.
Record t := mk {
  id : Z;
  lat : float;
  lng : float;
  name : jsstring;
  rationale : jsstring;
  chargers : jsstring
}.
End Site.

(** The parsed reply, [gisData] once stored. *)
Module GisData.
Record t := mk { cityCenter : CityCenter.t; sites : list Site.t }.
End GisData.

(** [formData], with the five keys of its initial value. *)
Module FormData.
Record t := mk {
  location : jsstring;
  demographics : jsstring;
  traffic : jsstring;
  amenities : jsstring;
  budget : jsstring
}.

(** [{ ...prev, [name]: value }].  A key other than the five is added to
    the object in JavaScript; nothing reads it, so it is dropped here. *)
Definition set (key value : jsstring) (prev : t) : t :=
  if decide (key = js "location") then
    mk value (demographics prev) (traffic prev) (amenities prev) (budget prev)
  else if decide (key = js "demographics") then
    mk (location prev) value (traffic prev) (amenities prev) (budget prev)
  else if decide (key = js "traffic") then
    mk (location prev) (demographics prev) value (amenities prev) (budget prev)
  else if decide (key = js "amenities") then
    mk (location prev) (demographics prev) (traffic prev) value (budget prev)
  else if decide (key = js "budget") then
    mk (location prev) (demographics prev) (traffic prev) (amenities prev) value
  else prev.

(** The argument of [useState] at line 92. *)
Definition initial : t :=
  mk (js "") (js "urban-dense") (js "highway-adjacent") (js "retail")
     (js "medium").
End FormData.

(** The five [useState] cells of [App]. *)
Record AppState := mkAppState {
  formData : FormData.t;
  loading : bool;
  gisData : option GisData.t;
  error : option jsstring;
  hoveredSite : option Site.t
}.

Definition initialState : AppState :=
  mkAppState FormData.initial false None None None.

(** A call of one of the five state setters. *)
Inductive Setter :=
| setFormData (key value : jsstring)   (* [setFormData(prev => ({...prev, [key]: value}))] *)
| setLoading (b : bool)
| setGisData (d : option GisData.t)
| setError (m : option jsstring)
| setHoveredSite (s : option Site.t).

Definition apply_setter (s : Setter) (st : AppState) : AppState :=
  match s with
  | setFormData k v =>
      mkAppState (FormData.set k v (formData st)) (loading st) (gisData st)
                 (error st) (hoveredSite st)
  | setLoading b =>
      mkAppState (formData st) b (gisData st) (error st) (hoveredSite st)
  | setGisData d =>
      mkAppState (formData st) (loading st) d (error st) (hoveredSite st)
  | setError m =>
      mkAppState (formData st) (loading st) (gisData st) m (hoveredSite st)
  | setHoveredSite s =>
      mkAppState (formData st) (loading st) (gisData st) (error st) s
  end.

(** ** The form controls *)

(** The four controls inside the [<form>] that carry [onChange]. *)
Inductive Control := LocationInput | DemographicsSelect | TrafficSelect | AmenitiesSelect.

(** Their [name] attributes. *)
Definition control_name (c : Control) : jsstring :=
  match c with
  | LocationInput => js "location"
  | DemographicsSelect => js "demographics"
  | TrafficSelect => js "traffic"
  | AmenitiesSelect => js "amenities"
  end.

(** The [<option value>]s of the three selects. *)
Definition options (c : Control) : list jsstring :=
  match c with
  | LocationInput => []
  | DemographicsSelect =>
      [js "urban-dense"; js "suburban-residential"; js "commercial-district";
       js "rural-corridor"]
  | TrafficSelect =>
      [js "highway-adjacent"; js "local-commuter"; js "destination-traffic";
       js "ride-share-hub"]
  | AmenitiesSelect =>
      [js "retail"; js "dining"; js "workplaces"; js "parks-recreation";
       js "none-isolated"]
  end.

(** [e.target] of a change event. *)
Record ChangeEvent := mkChange { target_name : jsstring; target_value : jsstring }.

(** [handleInputChange]: one functional update of [formData]. *)
Definition handleInputChange (e : ChangeEvent) : Setter :=
  let name := target_name e in
  let value := target_value e in
  setFormData name value.

(** What can happen in the page besides a submission: a change event of one
    of the four controls, or a marker handler that [RealMap] registered
    calling [setHoveredSite]. *)
Inductive UiEvent :=
| Change (c : Control) (value : jsstring)
| Hover (s : option Site.t).

Definition ui_setter (e : UiEvent) : Setter :=
  match e with
  | Change c v => handleInputChange (mkChange (control_name c) v)
  | Hover s => setHoveredSite s
  end.

(** ** The AI service, as [fetch] sees it *)

(** The [responseSchema] of the request. *)
#[warnings="-register-all"]
Inductive Schema :=
| OBJECT (properties : list (string * Schema))
| ARRAY (items : Schema)
| NUMBER
| INTEGER
| STRING.

Record Payload := mkPayload {
  contents_text : jsstring;
  systemInstruction_text : jsstring;
  responseMimeType : jsstring;
  responseSchema : Schema
}.

(** The arguments of [fetch]; [body] is [JSON.stringify(payload)], kept
    structured. *)
Record Request := mkRequest {
  url : jsstring;
  method : jsstring;
  content_type : jsstring;
  body : Payload
}.

(** What [await response.json()] yields when it does not reject. *)
Inductive ResponseData :=
| JsonNull
    (* the body is [null]: reading [data.candidates] throws *)
| JsonValue (text : option jsstring).
    (* [data.candidates?.[0]?.content?.parts?.[0]?.text]; [None] is [undefined] *)

(** A [Response]: its status, and its body read as JSON ([None] when the
    body is not JSON and [response.json()] rejects). *)
Record Response := mkResponse { status : N; json_body : option ResponseData }.

(** [response.ok] *)
Definition ok (r : Response) : bool := ((200 <=? status r) && (status r <=? 299))%N.

(** How one call of [fetch] settles. *)
Inductive Reply :=
| Rejects (e : JS.error)      (* network failure *)
| Resolves (r : Response).

(** ** Handlers as programs *)

(** What a handler does, in order.  [Ui] entries are events the page
    handled while the handler was suspended at an [await]. *)
Inductive Entry :=
| PreventDefault
| Set_ (s : Setter)
| Fetch (req : Request)
| SetTimeout (ms : N)
| Ui (e : UiEvent).

Record World := mkWorld {
  ui : AppState;          (* the React state *)
  log : list Entry;       (* what happened so far *)
  fetches : nat;          (* calls of [fetch] so far *)
  awaits : nat            (* suspensions so far *)
}.

Inductive Completion (A : Type) :=
| Normal (a : A)
| Throw (e : JS.error).
Arguments Normal {A} a.
Arguments Throw {A} e.

Definition M (A : Type) : Type := World -> Completion A * World.

Definition ret {A} (a : A) : M A := fun w => (Normal a, w).

Definition bind {A B} (m : M A) (k : A -> M B) : M B :=
  fun w =>
    match m w with
    | (Normal a, w') => k a w'
    | (Throw e, w') => (Throw e, w')
    end.

Definition throw {A} (e : JS.error) : M A := fun w => (Throw e, w).

(** [try { body } catch (err) { handler err }] *)
Definition try_catch {A} (body : M A) (handler : JS.error -> M A) : M A :=
  fun w =>
    match body w with
    | (Normal a, w') => (Normal a, w')
    | (Throw e, w') => handler e w'
    end.

(** [try { body } finally { fin }]: [fin] runs either way; a completion of
    [body] is kept unless [fin] itself throws. *)
Definition try_finally {A} (body : M A) (fin : M unit) : M A :=
  fun w =>
    match body w with
    | (c, w') =>
        match fin w' with
        | (Normal _, w'') => (c, w'')
        | (Throw e, w'') => (Throw e, w'')
        end
    end.

Declare Scope js_scope.
Delimit Scope js_scope with js.
Notation "x <- m ;; k" := (bind m (fun x => k))
  (at level 100, m at next level, k at level 200, right associativity)
  : js_scope.
Notation "m ;; k" := (bind m (fun _ => k))
  (at level 100, k at level 200, right associativity) : js_scope.

Definition record (e : Entry) : M unit :=
  fun w => (Normal (), mkWorld (ui w) (log w ++ [e]) (fetches w) (awaits w)).

(** A setter call: recorded, and applied to the state. *)
Definition call (s : Setter) : M unit :=
  fun w => (Normal (), mkWorld (apply_setter s (ui w)) (log w ++ [Set_ s])
                               (fetches w) (awaits w)).

(** One UI event handled by the page. *)
Definition handle_ui (w : World) (e : UiEvent) : World :=
  mkWorld (apply_setter (ui_setter e) (ui w)) (log w ++ [Ui e])
          (fetches w) (awaits w).

Section Controller.

(** [import.meta.env.VITE_GEMINI_API_KEY], as the template literal prints it. *)
Variable apiKey : jsstring.

(** [JSON.parse] on the candidate text; [None] when it throws. *)
Variable JSON_parse : jsstring -> option GisData.t.

(** How the [k]-th call of [fetch] settles. *)
Variable server : nat -> Reply.

(** The UI events the page handles during the [k]-th suspension. *)
Variable meanwhile : nat -> list UiEvent.

Local Open Scope js_scope.

(** The handler is suspended; the page handles what comes in. *)
Definition suspend : M unit :=
  fun w =>
    let w' := foldl handle_ui w (meanwhile (awaits w)) in
    (Normal (), mkWorld (ui w') (log w') (fetches w') (S (awaits w'))).

(** [await fetch(url, init)] *)
Definition fetch (req : Request) : M Response :=
  record (Fetch req);;
  suspend;;
  fun w =>
    let w' := mkWorld (ui w) (log w) (S (fetches w)) (awaits w) in
    match server (fetches w) with
    | Rejects e => (Throw e, w')
    | Resolves r => (Normal r, w')
    end.

(** [await response.json()] *)
Definition json (r : Response) : M ResponseData :=
  suspend;;
  match json_body r with
  | Some d => ret d
  | None => throw (JS.mkError JS.SyntaxError (js "Unexpected token"))
  end.

(** [data.candidates?.[0]?.content?.parts?.[0]?.text] *)
Definition candidate_text (data : ResponseData) : M (option jsstring) :=
  match data with
  | JsonNull =>
      throw (JS.mkError JS.TypeError
               (js "Cannot read properties of null (reading 'candidates')"))
  | JsonValue text => ret text
  end.

(** [JSON.parse(jsonString)]; [undefined] is read as the text
    [undefined], which is not JSON. *)
Definition parse (jsonString : option jsstring) : M GisData.t :=
  match jsonString ≫= JSON_parse with
  | Some v => ret v
  | None => throw (JS.mkError JS.SyntaxError (js "Unexpected token"))
  end.

(** [await new Promise(res => setTimeout(res, ms))] *)
Definition sleep (ms : N) : M unit :=
  record (SetTimeout ms);;
  suspend.

Definition systemInstruction : jsstring :=
  js "You are an expert GIS analyst, urban planner, and EV infrastructure consultant. Generate realistic, precise hypothetical map coordinates (latitude/longitude) and site planning data based on the user's geographic and demographic requests.".

Definition schema : Schema :=
  OBJECT
    [("cityCenter"%string,
       OBJECT [("lat"%string, NUMBER); ("lng"%string, NUMBER)]);
     ("sites"%string,
       ARRAY (OBJECT [("id"%string, INTEGER); ("lat"%string, NUMBER);
                      ("lng"%string, NUMBER); ("name"%string, STRING);
                      ("rationale"%string, STRING);
                      ("chargers"%string, STRING)]))].

Definition request (prompt : jsstring) : Request :=
  let url :=
    js "https://generativelanguage.googleapis.com/v1beta/models/gemini-2.5-flash:generateContent?key="
    ++ apiKey in
  let payload :=
    mkPayload prompt systemInstruction (js "application/json") schema in
  mkRequest url (js "POST") (js "application/json") payload.

(** The body of the [try] block, lines 155-165. *)
Definition attempt (prompt : jsstring) : M GisData.t :=
  response <- fetch (request prompt);;
  if negb (ok response) then
    throw (JS.mkError JS.Error
             (js "API request failed with status " ++ JS.of_N (status response)))
  else
    data <- json response;;
    jsonString <- candidate_text data;;
    parse jsonString.

Definition delays : list N := [500; 1000]%N.

(** The [for] loop of lines 153-170 over the values of [i] still to come,
    and the [throw] after it.  An iteration leaves the function through
    [return], or falls through the [catch] to the next one. *)
Fixpoint retry (prompt : jsstring) (indices : list nat) (lastError : option JS.error)
  : M GisData.t :=
  match indices with
  | [] => throw (JS.mkError JS.Error (js "Failed to connect to AI. Please try again."))
  | i :: rest =>
      r <- try_catch
             (v <- attempt prompt;; ret (inl v))
             (fun err =>
                (if (i <? 2)%nat
                 then sleep (default 0%N (delays !! i))
                 else ret ());;
                ret (inr err));;
      match r with
      | inl v => ret v
      | inr err => retry prompt rest (Some err)
      end
  end.

(** [for (let i = 0; i <= 2; i++)] *)
Definition callGeminiWithRetry (prompt : jsstring) : M GisData.t :=
  retry prompt (seq 0 3) None.

(** The template literal of lines 186-197. *)
Definition prompt (formData : FormData.t) : jsstring :=
    js "
      Determine the central coordinates (lat/lng) for: " ++ FormData.location formData ++ js ".
      Then, recommend the top 3 optimal hypothetical sites to build NEW EV charging infrastructure in or around that exact location.
      
      Criteria constraints:
      - Demographics / Area Type: " ++ JS.replace (js "-") (js " ") (FormData.demographics formData) ++ js "
      - Traffic Profile: " ++ JS.replace (js "-") (js " ") (FormData.traffic formData) ++ js "
      - Nearby Amenities: " ++ JS.replace (js "-") (js " ") (FormData.amenities formData) ++ js "
      - Expected Scale/Budget: " ++ FormData.budget formData ++ js "
      
      CRITICAL: Ensure the coordinates (lat/lng) for the 3 sites are realistic and actually located near the requested city center (e.g. within a 0.05 to 0.1 degree radius), accurately reflecting the demographics (e.g., near a highway if requested).
    ".

(** [handleSubmit], run on the render whose state is [ui] at the call:
    [formData] is the value the closure captured. *)
Definition handleSubmit : M unit :=
  fun w0 =>
    let formData := formData (ui w0) in
    (record PreventDefault;;
     if negb (JS.truthy (JS.trim (FormData.location formData))) then
       call (setError (Some (js "Please enter a target location (City, State, or Region).")))
     else
       call (setLoading true);;
       call (setError None);;
       call (setGisData None);;
       call (setHoveredSite None);;
       let prompt := prompt formData in
       try_finally
         (try_catch
            (parsedData <- callGeminiWithRetry prompt;;
             call (setGisData (Some parsedData)))
            (fun err => call (setError (Some (JS.message err)))))
         (call (setLoading false))) w0.

End Controller.

(** ** What [App] renders over the map *)

Inductive Overlay :=
| LoadingOverlay                 (* lines 345-351 *)
| HoverCard (site : Site.t)      (* lines 354-384 *)
| Placeholder.                   (* lines 387-397 *)

(** The three conditional blocks above [<RealMap>], in source order. *)
Definition overlays (st : AppState) : list Overlay :=
  (if loading st then [LoadingOverlay] else [])
  ++ match hoveredSite st with
     | Some site => if negb (loading st) then [HoverCard site] else []
     | None => []
     end
  ++ (if negb (bool_decide (is_Some (gisData st))) && negb (loading st)
      then [Placeholder] else []).

(** [disabled={loading}] on the submit button. *)
Definition submit_disabled (st : AppState) : bool := loading st.

(** ** Leaflet, as far as [RealMap] uses it *)

Module Leaflet.

Inductive DomEvent := mouseover | mouseout.

#[global] Instance DomEvent_eq_dec : EqDecision DomEvent.
Proof. solve_decision. Defined.

(** [L.divIcon({className, html, iconSize, iconAnchor})]; the [html] is
    markup only and is left out. *)
Record Icon := mkIcon {
  className : jsstring;
  iconSize : N * N;
  iconAnchor : N * N
}.

(** A marker: where it is, its icon, and the listeners [on] registered.
    The two listeners of [RealMap] are closures that call
    [setHoveredSite] once; a listener is kept as that call. *)
Record Marker := mkMarker {
  latlng : float * float;
  icon : Icon;
  listeners : list (DomEvent * Setter)
}.

Inductive Object :=
| TileLayer (urlTemplate : jsstring) (maxZoom : N)
| MarkerObject (m : Marker).

(** A map: its view and [_layers], the ids of the layers it shows. *)
Record Map := mkMap {
  center : float * float;
  zoom : N;
  layers : gset nat
}.

Definition on (ev : DomEvent) (f : Setter) (o : Object) : Object :=
  match o with
  | MarkerObject m =>
      MarkerObject (mkMarker (latlng m) (icon m) (listeners m ++ [(ev, f)]))
  | TileLayer u z => TileLayer u z
  end.

Definition addLayer (id : nat) (m : Map) : Map :=
  mkMap (center m) (zoom m) ({[id]} ∪ layers m).

Definition removeLayer (id : nat) (m : Map) : Map :=
  mkMap (center m) (zoom m) (layers m ∖ {[id]}).

(** [setView] and, once its animation is over, [flyTo]. *)
Definition setView (c : float * float) (z : N) (m : Map) : Map :=
  mkMap c z (layers m).

End Leaflet.

(** ** [RealMap] *)

(** The page as [RealMap] sees it.  Leaflet objects are shared between the
    map and [markersRef.current], so they live in [objects] and are named
    by their Leaflet id, given here when the object is made. *)
Record MapWorld := mkMapWorld {
  windowL : bool;                          (* [window.L] is there *)
  head : list jsstring;                    (* what was appended to [document.head] *)
  lastId : nat;                            (* Leaflet's id counter *)
  objects : gmap nat Leaflet.Object;
  mapContainerRef : bool;                  (* [.current] is the [<div>] *)
  mapInstance : option Leaflet.Map;        (* [mapInstance.current] *)
  markersRef : list nat                    (* [markersRef.current] *)
}.

(** Before the first effect runs, the [<div>] mounted. *)
Definition mountedMap : MapWorld :=
  mkMapWorld false [] 0 ∅ true None [].

Definition customIcon : Leaflet.Icon :=
  Leaflet.mkIcon (js "custom-ev-pin") (36, 44)%N (18, 44)%N.

(** [loadLeaflet], once the script's [onload] has fired. *)
Definition loadLeaflet (w : MapWorld) : MapWorld :=
  if windowL w then w
  else
    mkMapWorld true
      (head w ++ [js "https://unpkg.com/leaflet@1.9.4/dist/leaflet.css";
                  js "https://unpkg.com/leaflet@1.9.4/dist/leaflet.js"])
      (lastId w) (objects w) (mapContainerRef w) (mapInstance w) (markersRef w).

(** Lines 36-46: the map is made once, with its tile layer. *)
Definition initMap (w : MapWorld) : MapWorld :=
  match mapInstance w with
  | Some _ => w
  | None =>
      let map := Leaflet.mkMap (39.8283, -98.5795)%float 4 ∅ in
      let tile := S (lastId w) in
      let tileLayer :=
        Leaflet.TileLayer
          (js "https://{s}.basemaps.cartocdn.com/rastertiles/voyager/{z}/{x}/{y}{r}.png")
          19 in
      mkMapWorld (windowL w) (head w) tile (<[tile := tileLayer]> (objects w))
        (mapContainerRef w) (Some (Leaflet.addLayer tile map)) (markersRef w)
  end.

(** [mapInstance.current.f(...)] for a method [f] that returns the map. *)
Definition onMap (f : Leaflet.Map -> Leaflet.Map) (w : MapWorld) : MapWorld :=
  mkMapWorld (windowL w) (head w) (lastId w) (objects w) (mapContainerRef w)
    (f <$> mapInstance w) (markersRef w).

(** Lines 59-60. *)
Definition clearMarkers (w : MapWorld) : MapWorld :=
  let w' := foldl (fun w marker => onMap (Leaflet.removeLayer marker) w) w
                  (markersRef w) in
  mkMapWorld (windowL w') (head w') (lastId w') (objects w') (mapContainerRef w')
    (mapInstance w') [].

(** The body of [sites.forEach], lines 77-82. *)
Definition addMarker (w : MapWorld) (site : Site.t) : MapWorld :=
  let marker := S (lastId w) in
  let made :=
    Leaflet.MarkerObject
      (Leaflet.mkMarker (Site.lat site, Site.lng site) customIcon []) in
  let w1 :=
    mkMapWorld (windowL w) (head w) marker (<[marker := made]> (objects w))
      (mapContainerRef w) (mapInstance w) (markersRef w) in
  let w2 := onMap (Leaflet.addLayer marker) w1 in
  let listen ev f (w : MapWorld) :=
    mkMapWorld (windowL w) (head w) (lastId w)
      (alter (Leaflet.on ev f) marker (objects w))
      (mapContainerRef w) (mapInstance w) (markersRef w) in
  let w3 := listen Leaflet.mouseover (setHoveredSite (Some site)) w2 in
  let w4 := listen Leaflet.mouseout (setHoveredSite None) w3 in
  mkMapWorld (windowL w4) (head w4) (lastId w4) (objects w4) (mapContainerRef w4)
    (mapInstance w4) (markersRef w4 ++ [marker]).

(** The callback of [loadLeaflet().then], lines 32-85, for one value of the
    [gisData] prop. *)
Definition effect (gisData : option GisData.t) (w : MapWorld) : MapWorld :=
  let w := loadLeaflet w in
  if negb (mapContainerRef w) then w
  else
    let w := initMap w in
    match gisData, mapInstance w with
    | Some d, Some _ =>
        let cityCenter := GisData.cityCenter d in
        let sites := GisData.sites d in
        let w := onMap (Leaflet.setView
                          (CityCenter.lat cityCenter, CityCenter.lng cityCenter) 13) w in
        let w := clearMarkers w in
        foldl addMarker w sites
    | _, _ => w
    end.

(** The effect runs after each render in which [gisData] changed: the
    renderer after a sequence of values of [gisData]. *)
Definition render_all (results : list (option GisData.t)) (w : MapWorld) : MapWorld :=
  foldl (fun w r => effect r w) w results.

(** The ids the map shows that are markers. *)
Definition is_marker (w : MapWorld) (id : nat) : bool :=
  match objects w !! id with
  | Some (Leaflet.MarkerObject _) => true
  | _ => false
  end.

Definition markers_on_map (w : MapWorld) : gset nat :=
  match mapInstance w with
  | Some map => filter (fun id => is_marker w id = true) (Leaflet.layers map)
  | None => ∅
  end.

(** The listeners a marker has for one event. *)
Definition listeners_for (w : MapWorld) (id : nat) (ev : Leaflet.DomEvent) : list Setter :=
  match objects w !! id with
  | Some (Leaflet.MarkerObject m) =>
      snd <$> filter (fun l => l.1 = ev) (Leaflet.listeners m)
  | _ => []
  end.

(** Leaflet fires [ev] on the marker: its listeners run in order. *)
Definition fire (w : MapWorld) (id : nat) (ev : Leaflet.DomEvent) (st : AppState) : AppState :=
  foldl (fun st f => apply_setter f st) st (listeners_for w id ev).

(** ** Reading strings *)

(** Empty, or white space only. *)
Definition blank (s : jsstring) : Prop :=
  Forall (fun c => JS.is_white_space c = true) s.

#[global] Instance blank_dec s : Decision (blank s).
Proof. unfold blank. apply _. Defined.

(** [needle] occurs in [s] as a contiguous run of code units. *)
Definition occurs (needle s : jsstring) : Prop :=
  exists pre post, s = pre ++ needle ++ post.

(** [w] is [v] with some of its hyphens turned into spaces. *)
Definition readable (v w : jsstring) : Prop :=
  Forall2 (fun a b => a = b \/ (a = 45%N /\ b = 32%N)) v w.

(** ** Reading a log *)

Definition is_ui (e : Entry) : bool :=
  match e with Ui _ => true | _ => false end.

Definition is_fetch (e : Entry) : bool :=
  match e with Fetch _ => true | _ => false end.

(** The handler's own entries: the log without the interleaved UI events. *)
Definition own (l : list Entry) : list Entry :=
  filter (fun e => is_ui e = false) l.

(** The number of requests sent. *)
Definition attempts (l : list Entry) : nat :=
  length (filter (fun e => is_fetch e = true) l).

(** The state an entry leaves, and the state after a whole log. *)
Definition replay_entry (st : AppState) (e : Entry) : AppState :=
  match e with
  | Set_ s => apply_setter s st
  | Ui u => apply_setter (ui_setter u) st
  | _ => st
  end.

Definition replay (l : list Entry) (st : AppState) : AppState :=
  foldl replay_entry st l.

(** What a run added to the log. *)
Definition added (w w' : World) : list Entry :=
  drop (length (log w)) (log w').

(** ** The retry policy, in the words of the specification *)

Section Policy.

Variable JSON_parse : jsstring -> option GisData.t.

(** One attempt: the reply parsed, or the error thrown on a network
    failure, a status outside 2xx, or a body that is not the JSON
    expected. *)
Definition settle (r : Reply) : Completion GisData.t :=
  match r with
  | Rejects e => Throw e
  | Resolves response =>
      if ok response then
        match json_body response with
        | None => Throw (JS.mkError JS.SyntaxError (js "Unexpected token"))
        | Some JsonNull =>
            Throw (JS.mkError JS.TypeError
                     (js "Cannot read properties of null (reading 'candidates')"))
        | Some (JsonValue text) =>
            match text ≫= JSON_parse with
            | Some v => Normal v
            | None => Throw (JS.mkError JS.SyntaxError (js "Unexpected token"))
            end
        end
      else
        Throw (JS.mkError JS.Error
                 (js "API request failed with status " ++ JS.of_N (status response)))
  end.

(** Up to three attempts, 500ms after the first failure and 1000ms after
    the second, one generic error after the third: the completion and the
    requests and timers, given how the three attempts would go. *)
Definition retry_policy (req : Request) (a1 a2 a3 : Completion GisData.t)
  : Completion GisData.t * list Entry :=
  match a1, a2, a3 with
  | Normal v, _, _ => (Normal v, [Fetch req])
  | Throw _, Normal v, _ => (Normal v, [Fetch req; SetTimeout 500; Fetch req])
  | Throw _, Throw _, Normal v =>
      (Normal v,
       [Fetch req; SetTimeout 500; Fetch req; SetTimeout 1000; Fetch req])
  | Throw _, Throw _, Throw _ =>
      (Throw (JS.mkError JS.Error (js "Failed to connect to AI. Please try again.")),
       [Fetch req; SetTimeout 500; Fetch req; SetTimeout 1000; Fetch req])
  end.

End Policy.

(** [w'] is [w] after the entries [l]: they were appended to the log, the
    state is the one they leave, and each request was counted. *)
Definition extends (w w' : World) (l : list Entry) : Prop :=
  log w' = log w ++ l /\ ui w' = replay l (ui w)
  /\ fetches w' = fetches w + attempts l.

(** ** What a submission logs *)

Definition validation_message : jsstring :=
  js "Please enter a target location (City, State, or Region).".

(** The four setter calls of lines 181-184, after [preventDefault]. *)
Definition opening : list Entry :=
  [PreventDefault; Set_ (setLoading true); Set_ (setError None);
   Set_ (setGisData None); Set_ (setHoveredSite None)].

(** The setter call of the [try] or of the [catch] block, lines 201 and 203. *)
Definition conclusion (c : Completion GisData.t) : Entry :=
  match c with
  | Normal parsedData => Set_ (setGisData (Some parsedData))
  | Throw err => Set_ (setError (Some (JS.message err)))
  end.

(** ** Markers and sites *)

(** The marker lines 77-80 build for a site. *)
Definition marker_for (site : Site.t) : Leaflet.Marker :=
  Leaflet.mkMarker (Site.lat site, Site.lng site) customIcon
    [(Leaflet.mouseover, setHoveredSite (Some site));
     (Leaflet.mouseout, setHoveredSite None)].

(** The object [id] is the marker of [site]. *)
Definition pins (w : MapWorld) (id : nat) (site : Site.t) : Prop :=
  objects w !! id = Some (Leaflet.MarkerObject (marker_for site)).

(** The sites of the current result: those of the last element of the
    sequence, none when it is [null] or the sequence is empty. *)
Definition current_sites (results : list (option GisData.t)) : list Site.t :=
  match last results with
  | Some (Some d) => GisData.sites d
  | _ => []
  end.

(** The sites of the last result that was not [null]. *)
Definition shown_sites (results : list (option GisData.t)) : list Site.t :=
  foldl (fun shown r =>
           match r with
           | Some d => GisData.sites d
           | None => shown
           end) [] results.

(** The renderer is consistent and shows [sites]: one marker per site, in
    order, no id twice, and the map shows its tile layer and these markers. *)
Definition map_shows (w : MapWorld) (sites : list Site.t) : Prop :=
  mapContainerRef w = true
  /\ Forall2 (pins w) (markersRef w) sites
  /\ NoDup (markersRef w)
  /\ match mapInstance w with
     | None => markersRef w = []
     | Some map =>
         exists tile,
           Leaflet.layers map = {[tile]} ∪ list_to_set (markersRef w)
           /\ is_marker w tile = false
           /\ tile <= lastId w
     end.

(** The part of the state that only a submission writes. *)
Definition controlled (st : AppState) : bool * option GisData.t * option jsstring :=
  (loading st, gisData st, error st).

(** [setGisData] called with a result. *)
Definition stores_result (e : Entry) : bool :=
  match e with Set_ (setGisData (Some _)) => true | _ => false end.

(** ** States the page can be in *)

(** From the initial state: a UI event; or any state a submission passes
    through, the submit button being enabled when it starts (a prefix of
    the submission's log, replayed). *)
Inductive reachable : AppState -> Prop :=
| reachable_initial : reachable initialState
| reachable_ui st e :
    reachable st -> reachable (apply_setter (ui_setter e) st)
| reachable_submit st apiKey JSON_parse server meanwhile k a n :
    reachable st ->
    submit_disabled st = false ->
    reachable
      (replay
         (take n (log (handleSubmit apiKey JSON_parse server meanwhile
                         (mkWorld st [] k a)).2))
         st).

(** ** The statements of the specification that the code does not meet *)

(** Section 3: the markers are those of the sites of the current result,
    one per site, also when the result is [null]. *)
Definition markers_reflect_current (results : list (option GisData.t)) : Prop :=
  let w := render_all results mountedMap in
  Forall2 (pins w) (markersRef w) (current_sites results).

(** Section 4.4: the overlays exclude one another. *)
Definition at_most_one_overlay (st : AppState) : Prop :=
  length (overlays st) <= 1.

(** ** Sample data *)

Module Sample.

Definition miami : FormData.t :=
  FormData.mk (js "Miami, FL") (js "urban-dense") (js "highway-adjacent")
    (js "retail") (js "medium").

Definition rideshare : FormData.t :=
  FormData.mk (js "Miami, FL") (js "urban-dense") (js "ride-share-hub")
    (js "retail") (js "medium").

Definition brickell : Site.t :=
  Site.mk 1 25.7617 (-80.1918) (js "Brickell Plaza") (js "Dense retail core")
    (js "4 DC fast").

Definition wynwood : Site.t :=
  Site.mk 2 25.8042 (-80.1989) (js "Wynwood Walls") (js "Weekend destination")
    (js "8 Level 2").

Definition result : GisData.t :=
  GisData.mk (CityCenter.mk 25.7617 (-80.1918)) [brickell; wynwood].

Definition apiKey : jsstring := js "k".

(** A parser that knows one text. *)
Definition JSON_parse (text : jsstring) : option GisData.t :=
  if decide (text = js "ok") then Some result else None.

Definition offline : Reply :=
  Rejects (JS.mkError JS.TypeError (js "Failed to fetch")).

Definition unavailable : Reply := Resolves (mkResponse 503 None).

Definition garbled : Reply :=
  Resolves (mkResponse 200 (Some (JsonValue (Some (js "{"))))).

Definition good : Reply :=
  Resolves (mkResponse 200 (Some (JsonValue (Some (js "ok"))))).

(** Fails twice, then answers. *)
Definition flaky (k : nat) : Reply :=
  match k with 0 => offline | 1 => unavailable | _ => good end.

(** Never answers. *)
Definition down (k : nat) : Reply :=
  match k with 0 => offline | 1 => unavailable | _ => garbled end.

(** The user types and hovers while the request is out. *)
Definition busy (k : nat) : list UiEvent :=
  match k with
  | 0 => [Change LocationInput (js "Tampa, FL"); Hover (Some brickell)]
  | _ => [Change TrafficSelect (js "local-commuter")]
  end.

Definition world (fd : FormData.t) : World :=
  mkWorld (mkAppState fd false None (Some (js "old")) None) [] 0 0.

(** A site hovered, no result, nothing loading. *)
Definition hovering : AppState :=
  mkAppState FormData.initial false None None (Some brickell).

End Sample.

(** An entry that is not a call of [setFormData]. *)
Definition harmless (e : Entry) : Prop :=
  match e with
  | Set_ (setFormData _ _) => False
  | _ => True
  end.

(** ** More of the page *)

#[global] Instance Control_eq_dec : EqDecision Control.
Proof. solve_decision. Defined.

(** The [value] prop of a control: lines 247, 262, 281 and 300. *)
Definition control_value (c : Control) (st : AppState) : jsstring :=
  match c with
  | LocationInput => FormData.location (formData st)
  | DemographicsSelect => FormData.demographics (formData st)
  | TrafficSelect => FormData.traffic (formData st)
  | AmenitiesSelect => FormData.amenities (formData st)
  end.

(** The error box, lines 332-337: [{error && <div>...{error}...</div>}]
    shows the message when [error] is truthy. *)
Definition error_box (st : AppState) : option jsstring :=
  match error st with
  | Some message => if JS.truthy message then Some message else None
  | None => None
  end.


(** ** More readings of a log *)


(** The time the timers of a log ask for, in ms. *)
Definition total_wait (l : list Entry) : N :=
  foldr (fun e t => match e with SetTimeout ms => (ms + t)%N | _ => t end) 0%N l.

(** The form after the change events of a log. *)
Definition form_after (l : list Entry) (fd : FormData.t) : FormData.t :=
  foldl (fun fd e =>
           match e with
           | Ui (Change c value) => FormData.set (control_name c) value fd
           | _ => fd
           end) fd l.

(** The values [gisData] takes along a log, in order: each makes
    [RealMap] render with it as its prop (line 400) and its effect run
    (dependencies at line 86). *)
Definition gisData_updates (l : list Entry) : list (option GisData.t) :=
  omap (fun e => match e with Set_ (setGisData d) => Some d | _ => None end) l.

(** ** More of the renderer *)

Definition leaflet_assets : list jsstring :=
  [js "https://unpkg.com/leaflet@1.9.4/dist/leaflet.css";
   js "https://unpkg.com/leaflet@1.9.4/dist/leaflet.js"].

Definition tile_layer : Leaflet.Object :=
  Leaflet.TileLayer
    (js "https://{s}.basemaps.cartocdn.com/rastertiles/voyager/{z}/{x}/{y}{r}.png")
    19.

(** The view of the map, the one of line 40 while there is no map. *)
Definition view (w : MapWorld) : (float * float) * N :=
  match mapInstance w with
  | Some map => (Leaflet.center map, Leaflet.zoom map)
  | None => ((39.8283, -98.5795)%float, 4%N)
  end.

(** The view the results ask for: the centre of the last result that was
    not [null] at zoom 13, the view of line 40 when there was none. *)
Definition view_of (results : list (option GisData.t)) : (float * float) * N :=
  foldl (fun v r =>
           match r with
           | Some d =>
               ((CityCenter.lat (GisData.cityCenter d),
                 CityCenter.lng (GisData.cityCenter d)), 13%N)
           | None => v
           end) ((39.8283, -98.5795)%float, 4%N) results.

(** The map exists with its tile layer, of id [1], and the markers are the
    other layers; no id is beyond Leaflet's counter. *)
Definition map_ready (w : MapWorld) : Prop :=
  mapContainerRef w = true
  /\ windowL w = true
  /\ objects w !! 1 = Some tile_layer
  /\ 1 <= lastId w
  /\ Forall (fun id => 1 < id <= lastId w) (markersRef w)
  /\ exists map,
       mapInstance w = Some map
       /\ Leaflet.layers map = {[1]} ∪ list_to_set (markersRef w).

(** ** The build plugin, [vite.config.js] *)

(** [id.match(/\.js$/)]: the pattern is tried at each index of [id]; it
    matches there when what is left of [id] is [.js]. *)
Fixpoint match_dot_js (id : jsstring) : bool :=
  bool_decide (id = js ".js")
  || match id with
     | [] => false
     | _ :: rest => match_dot_js rest
     end.

(** A call of [transformWithEsbuild(code, id, {loader, jsx})]. *)
Record EsbuildCall := mkEsbuildCall {
  esbuild_code : jsstring;
  esbuild_id : jsstring;
  esbuild_loader : jsstring;
  esbuild_jsx : jsstring
}.

(** [transform(code, id)] of the plugin [treat-js-as-jsx]: [None] is
    [null], otherwise the call whose result it returns. *)
Definition transform (code id : jsstring) : option EsbuildCall :=
  if negb (match_dot_js id) then None
  else Some (mkEsbuildCall code id (js "jsx") (js "automatic")).

(** The renderer before its [<div>] is mounted. *)
Definition unmountedMap : MapWorld :=
  mkMapWorld false [] 0 ∅ false None [].

(** The messages [App] itself words: the only ones it means to show. *)
Definition own_messages : list (option jsstring) :=
  [None;
   Some (js "Please enter a target location (City, State, or Region).");
   Some (js "Failed to connect to AI. Please try again.")].

(** An entry that leaves the error one of [own_messages]. *)
Definition words_error (e : Entry) : Prop :=
  match e with
  | Set_ (setError m) => m ∈ own_messages
  | _ => True
  end.

(** An entry that calls no state setter. *)
Definition calls_no_setter (e : Entry) : Prop :=
  match e with
  | Set_ _ => False
  | _ => True
  end.

(** ** Suspensions *)

Section Timeline.

Variable JSON_parse : jsstring -> option GisData.t.
Variable meanwhile : nat -> list UiEvent.
Variable req : Request.

(** What the log gets while the handler is suspended for the [k]-th time:
    the events the page handles until the handler resumes. *)
Definition slot (k : nat) : list Entry := Ui <$> meanwhile k.

(** [n] suspensions in a row, from the [a]-th. *)
Fixpoint slots (a n : nat) : list Entry :=
  match n with
  | 0 => []
  | S n' => slot a ++ slots (S a) n'
  end.

(** The [await]s of one attempt: on [fetch], and on [response.json()]
    when the response is ok. *)
Definition attempt_awaits (r : Reply) : nat :=
  match r with
  | Rejects _ => 1
  | Resolves response => if ok response then 2 else 1
  end.

(** One attempt begun when [a] suspensions are past: the request, and the
    handler suspended on it. *)
Definition attempt_timeline (a : nat) (r : Reply) : list Entry :=
  Fetch req :: slots a (attempt_awaits r).

(** One wait begun when [a] suspensions are past: the timer of [ms] is
    set, and the handler is suspended until the promise the timer
    resolves lets it resume. *)
Definition wait_timeline (a : nat) (ms : N) : list Entry :=
  SetTimeout ms :: slots a 1.

(** The retry policy with its suspensions: every entry of the client's
    run, and the number of suspensions past when it ends, given the
    replies the three requests would get and the number [a] of suspensions
    past when it starts. *)
Definition retry_timeline (r1 r2 r3 : Reply) (a : nat) : list Entry * nat :=
  let a1 := a + attempt_awaits r1 in
  let a2 := S a1 + attempt_awaits r2 in
  let a3 := S a2 + attempt_awaits r3 in
  match settle JSON_parse r1, settle JSON_parse r2 with
  | Normal _, _ => (attempt_timeline a r1, a1)
  | Throw _, Normal _ =>
      (attempt_timeline a r1 ++ wait_timeline a1 500
       ++ attempt_timeline (S a1) r2, a2)
  | Throw _, Throw _ =>
      (attempt_timeline a r1 ++ wait_timeline a1 500
       ++ attempt_timeline (S a1) r2 ++ wait_timeline a2 1000
       ++ attempt_timeline (S a2) r3, a3)
  end.

End Timeline.

(** * Properties *)

(** ** Strings *)

Section Strings.
Implicit Types (s p needle : jsstring) (c : N).

Lemma trimStart_blank s : blank s -> JS.trimStart s = [].
Proof.
  induction 1 as [|c s Hc _ IH]; [done|]. simpl. by rewrite Hc.
Qed.

Lemma trimStart_nil_blank s : JS.trimStart s = [] -> blank s.
Proof.
  induction s as [|c s IH]; [intros _; by apply Forall_nil|]. simpl.
  destruct (JS.is_white_space c) eqn:Hc; [|done].
  intros H. apply Forall_cons. split; [done | by apply IH].
Qed.

Lemma trimStart_snoc_black s c :
  JS.is_white_space c = false -> JS.trimStart (s ++ [c]) <> [].
Proof.
  intros Hc. induction s as [|d s IH]; simpl.
  - by rewrite Hc.
  - destruct (JS.is_white_space d); [done|]. discriminate.
Qed.

Lemma trimStart_head s c s' :
  JS.trimStart s = c :: s' -> JS.is_white_space c = false.
Proof.
  induction s as [|d s IH]; simpl; [done|].
  destruct (JS.is_white_space d) eqn:Hd; [done|].
  intros [= -> ->]. done.
Qed.

(** [!s.trim()] holds exactly for the blank strings. *)
Lemma trim_falsy s : JS.truthy (JS.trim s) = false <-> blank s.
Proof.
  unfold JS.trim, JS.trimEnd. split.
  - intros H. apply trimStart_nil_blank.
    destruct (JS.trimStart s) as [|c s'] eqn:E; [done|].
    exfalso. apply trimStart_head in E as Hc.
    rewrite reverse_cons in H.
    pose proof (trimStart_snoc_black (reverse s') c Hc) as Hne.
    destruct (JS.trimStart (reverse s' ++ [c])) as [|d t] eqn:E'; [done|].
    rewrite reverse_cons in H. by destruct (reverse t).
  - intros H. by rewrite (trimStart_blank s H).
Qed.

Lemma strip_prefix_spec p s r : JS.strip_prefix p s = Some r <-> s = p ++ r.
Proof.
  revert s. induction p as [|a p IH]; intros s.
  - simpl. split; [by intros [= ->] | by intros ->].
  - destruct s as [|b s]; simpl; [done|].
    destruct (N.eqb_spec a b) as [->|Hne].
    + rewrite IH. split; [by intros -> | by intros [= ->]].
    + split; [done | intros [= ? ?]; done].
Qed.

Lemma strip_prefix_occurs needle s r :
  JS.strip_prefix needle s = Some r -> occurs needle s.
Proof. intros ->%strip_prefix_spec. by exists [], r. Qed.

Lemma occurs_cons_inv needle c s :
  occurs needle (c :: s) ->
  (exists r, JS.strip_prefix needle (c :: s) = Some r) \/ occurs needle s.
Proof.
  intros (pre & post & H). destruct pre as [|d pre].
  - left. exists post. by apply strip_prefix_spec.
  - right. injection H as _ ->. by exists pre, post.
Qed.

(** [includes] decides [occurs]. *)
Lemma includes_spec needle s : JS.includes needle s = true <-> occurs needle s.
Proof.
  induction s as [|c s IH]; simpl.
  - destruct (JS.strip_prefix needle []) as [r|] eqn:E.
    + split; [intros _; by eapply strip_prefix_occurs | done].
    + split; [done|]. intros (pre & post & H).
      destruct pre; [|done].
      assert (JS.strip_prefix needle [] = Some post) by by apply strip_prefix_spec.
      congruence.
  - destruct (JS.strip_prefix needle (c :: s)) as [r|] eqn:E.
    + split; [intros _; by eapply strip_prefix_occurs | done].
    + rewrite IH. split.
      * intros (pre & post & ->). by exists (c :: pre), post.
      * intros [[r Hr]|H]%occurs_cons_inv; [congruence | done].
Qed.

Lemma occurs_app_l needle s t : occurs needle s -> occurs needle (s ++ t).
Proof.
  intros (pre & post & ->). exists pre, (post ++ t). by rewrite <- !app_assoc.
Qed.

Lemma occurs_app_r needle s t : occurs needle t -> occurs needle (s ++ t).
Proof.
  intros (pre & post & ->). exists (s ++ pre), post. by rewrite <- !app_assoc.
Qed.

Lemma occurs_here needle t : occurs needle (needle ++ t).
Proof. by exists [], t. Qed.

Lemma readable_refl v : readable v v.
Proof. apply Forall2_same_length_lookup_2; [done|]. intros; simplify_eq. by left. Qed.

Lemma replace_hyphen_cons c v :
  JS.replace (js "-") (js " ") (c :: v) =
  if (c =? 45)%N then 32%N :: v else c :: JS.replace (js "-") (js " ") v.
Proof.
  change (js "-") with [45%N]. change (js " ") with [32%N].
  change (JS.replace [45%N] [32%N] (c :: v))
    with (match (if (45 =? c)%N then Some v else None) with
          | Some rest => [32%N] ++ rest
          | None => c :: JS.replace [45%N] [32%N] v
          end).
  rewrite N.eqb_sym. by destruct (c =? 45)%N.
Qed.

Lemma replace_hyphen_readable v :
  readable v (JS.replace (js "-") (js " ") v).
Proof.
  induction v as [|c v IH]; [constructor|].
  rewrite replace_hyphen_cons. destruct (N.eqb_spec c 45) as [->|Hne].
  - constructor; [by right | apply readable_refl].
  - constructor; [by left | done].
Qed.

(** A value with a single hyphen comes out with none. *)
Lemma replace_hyphen_once a b :
  45%N ∉ a -> JS.replace (js "-") (js " ") (a ++ 45%N :: b) = a ++ 32%N :: b.
Proof.
  induction a as [|c a IH]; intros Hin.
  - by rewrite app_nil_l, replace_hyphen_cons.
  - rewrite <- app_comm_cons, replace_hyphen_cons.
    apply not_elem_of_cons in Hin as [Hc Ha].
    destruct (N.eqb_spec c 45); [done|]. by rewrite IH.
Qed.

Lemma replace_hyphen_none v :
  45%N ∉ v -> JS.replace (js "-") (js " ") v = v.
Proof.
  induction v as [|c v IH]; intros Hin; [done|].
  rewrite replace_hyphen_cons.
  apply not_elem_of_cons in Hin as [Hc Hv].
  destruct (N.eqb_spec c 45); [done|]. by rewrite IH.
Qed.

End Strings.

(** ** Logs and states *)

Section Logs.

Lemma own_app l1 l2 : own (l1 ++ l2) = own l1 ++ own l2.
Proof. apply filter_app. Qed.

Lemma own_ui (es : list UiEvent) : own (Ui <$> es) = [].
Proof. induction es as [|e es IH]; [done|]. simpl. by rewrite <- IH. Qed.

Lemma attempts_app l1 l2 : attempts (l1 ++ l2) = attempts l1 + attempts l2.
Proof. unfold attempts. by rewrite filter_app, length_app. Qed.

Lemma attempts_ui (es : list UiEvent) : attempts (Ui <$> es) = 0.
Proof. induction es as [|e es IH]; [done|]. simpl. by rewrite <- IH. Qed.

Lemma replay_app l1 l2 st : replay (l1 ++ l2) st = replay l2 (replay l1 st).
Proof. apply foldl_app. Qed.

Lemma controlled_ui st u : controlled (apply_setter (ui_setter u) st) = controlled st.
Proof. by destruct u. Qed.

Lemma controlled_entry st1 st2 e :
  controlled st1 = controlled st2 ->
  controlled (replay_entry st1 e) = controlled (replay_entry st2 e).
Proof.
  unfold controlled. intros [= H1 H2 H3].
  destruct e as [|[]| | |[]]; simpl; congruence.
Qed.

Lemma controlled_replay_own l st1 st2 :
  controlled st1 = controlled st2 ->
  controlled (replay l st1) = controlled (replay (own l) st2).
Proof.
  revert st1 st2. induction l as [|e l IH]; intros st1 st2 H; [done|].
  destruct e as [| s | r | ms | u].
  5: { apply (IH (replay_entry st1 (Ui u)) st2).
       rewrite <- H. apply controlled_ui. }
  - apply (IH st1 st2 H).
  - apply (IH (apply_setter s st1) (apply_setter s st2)).
    by apply (controlled_entry st1 st2 (Set_ s)).
  - apply (IH st1 st2 H).
  - apply (IH st1 st2 H).
Qed.

End Logs.

(** ** The client *)

Lemma own_cons e l : is_ui e = false -> own (e :: l) = e :: own l.
Proof. intros H. unfold own. by rewrite filter_cons_True. Qed.

Ltac own_simpl :=
  repeat first [rewrite own_app | rewrite own_ui | rewrite own_cons by done];
  simpl.

Lemma extends_trans w1 w2 w3 l1 l2 :
  extends w1 w2 l1 -> extends w2 w3 l2 -> extends w1 w3 (l1 ++ l2).
Proof.
  intros (L1 & U1 & F1) (L2 & U2 & F2). split; [|split].
  - by rewrite L2, L1, app_assoc.
  - by rewrite U2, U1, replay_app.
  - rewrite F2, F1, attempts_app. lia.
Qed.

Lemma extends_added w w' l : extends w w' l -> added w w' = l.
Proof. intros (L & _ & _). unfold added. by rewrite L, drop_app_length. Qed.

Lemma foldl_handle_ui w es :
  foldl handle_ui w es =
  mkWorld (replay (Ui <$> es) (ui w)) (log w ++ (Ui <$> es)) (fetches w) (awaits w).
Proof.
  revert w. induction es as [|e es IH]; intros w.
  - destruct w. simpl. by rewrite app_nil_r.
  - simpl. rewrite IH. simpl. by rewrite <- app_assoc.
Qed.

Section ControllerFacts.

Variable apiKey : jsstring.
Variable JSON_parse : jsstring -> option GisData.t.
Variable server : nat -> Reply.
Variable meanwhile : nat -> list UiEvent.

Lemma suspend_spec w :
  exists w', suspend meanwhile w = (Normal (), w') /\ extends w w' (Ui <$> meanwhile (awaits w)).
Proof.
  eexists. split; [reflexivity|]. rewrite foldl_handle_ui.
  split; [done|]. split; [done|]. simpl. rewrite attempts_ui. lia.
Qed.

Lemma call_spec s w :
  exists w', call s w = (Normal (), w') /\ extends w w' [Set_ s].
Proof.
  eexists. split; [reflexivity|]. split; [done|]. split; [done|].
  unfold attempts. simpl. lia.
Qed.

Lemma fetch_spec req w :
  exists w',
    fetch server meanwhile req w =
      (match server (fetches w) with
       | Rejects e => Throw e
       | Resolves r => Normal r
       end, w')
    /\ extends w w' (Fetch req :: (Ui <$> meanwhile (awaits w))).
Proof.
  unfold fetch, bind, record, suspend. rewrite foldl_handle_ui. simpl.
  assert (Hext : forall a,
    extends w
      (mkWorld (replay (Ui <$> meanwhile (awaits w)) (ui w))
         ((log w ++ [Fetch req]) ++ (Ui <$> meanwhile (awaits w)))
         (S (fetches w)) a)
      (Fetch req :: (Ui <$> meanwhile (awaits w)))).
  { intros a. split; [by rewrite <- app_assoc|]. split; [done|].
    change (Fetch req :: (Ui <$> meanwhile (awaits w)))
      with ([Fetch req] ++ (Ui <$> meanwhile (awaits w))).
    rewrite attempts_app, attempts_ui. unfold attempts. simpl. lia. }
  destruct (server (fetches w)); eexists; (split; [reflexivity | apply Hext]).
Qed.

Lemma json_spec r w :
  exists w',
    json meanwhile r w =
      (match json_body r with
       | Some d => Normal d
       | None => Throw (JS.mkError JS.SyntaxError (js "Unexpected token"))
       end, w')
    /\ extends w w' (Ui <$> meanwhile (awaits w)).
Proof.
  destruct (suspend_spec w) as (w' & E & X).
  unfold json, bind. rewrite E.
  destruct (json_body r); eexists; (split; [reflexivity | done]).
Qed.

Lemma sleep_spec ms w :
  exists w',
    sleep meanwhile ms w = (Normal (), w')
    /\ extends w w' (SetTimeout ms :: (Ui <$> meanwhile (awaits w))).
Proof.
  unfold sleep, bind, record, suspend.
  rewrite foldl_handle_ui. simpl.
  eexists. split; [reflexivity|].
  split; [by rewrite <- app_assoc|]. split; [done|].
  change (SetTimeout ms :: (Ui <$> meanwhile (awaits w)))
    with ([SetTimeout ms] ++ (Ui <$> meanwhile (awaits w))).
  rewrite attempts_app, attempts_ui. unfold attempts. simpl. lia.
Qed.

(** One attempt goes as [settle] says: a request, then only UI events. *)
Lemma attempt_spec prompt w :
  exists w' es,
    attempt apiKey JSON_parse server meanwhile prompt w
    = (settle JSON_parse (server (fetches w)), w')
    /\ extends w w' (Fetch (request apiKey prompt) :: (Ui <$> es)).
Proof.
  unfold attempt, bind.
  destruct (fetch_spec (request apiKey prompt) w) as (w1 & E1 & X1). rewrite E1.
  destruct (server (fetches w)) as [e|r]; simpl.
  { by exists w1, (meanwhile (awaits w)). }
  destruct (ok r); simpl; [|by exists w1, (meanwhile (awaits w))].
  destruct (json_spec r w1) as (w2 & E2 & X2). rewrite E2.
  assert (X : extends w w2
                (Fetch (request apiKey prompt)
                   :: (Ui <$> (meanwhile (awaits w) ++ meanwhile (awaits w1))))).
  { rewrite fmap_app, app_comm_cons. by eapply extends_trans. }
  destruct (json_body r) as [[|text]|]; simpl; [| |by eauto].
  - by eauto.
  - unfold parse. destruct (text ≫= JSON_parse); by eauto.
Qed.

Lemma retry_cons prompt i rest lastError w :
  retry apiKey JSON_parse server meanwhile prompt (i :: rest) lastError w =
  match attempt apiKey JSON_parse server meanwhile prompt w with
  | (Normal v, w1) => (Normal v, w1)
  | (Throw err, w1) =>
      match (if (i <? 2)%nat
             then sleep meanwhile (default 0%N (delays !! i))
             else ret ()) w1 with
      | (Normal _, w2) =>
          retry apiKey JSON_parse server meanwhile prompt rest (Some err) w2
      | (Throw e, w2) => (Throw e, w2)
      end
  end.
Proof.
  simpl. unfold bind at 1. unfold try_catch. unfold bind at 1.
  destruct (attempt apiKey JSON_parse server meanwhile prompt w) as [[v|err] w1];
    [done|].
  unfold bind.
  by destruct ((if (i <? 2)%nat
                then sleep meanwhile (default 0%N (delays !! i))
                else ret ()) w1) as [[[]|e] w2].
Qed.

Lemma attempts_fetch_ui req (es : list UiEvent) :
  attempts (Fetch req :: (Ui <$> es)) = 1.
Proof.
  change (Fetch req :: (Ui <$> es)) with ([Fetch req] ++ (Ui <$> es)).
  by rewrite attempts_app, attempts_ui.
Qed.

Lemma attempts_timeout_ui ms (es : list UiEvent) :
  attempts (SetTimeout ms :: (Ui <$> es)) = 0.
Proof.
  change (SetTimeout ms :: (Ui <$> es)) with ([SetTimeout ms] ++ (Ui <$> es)).
  by rewrite attempts_app, attempts_ui.
Qed.

Lemma callGeminiWithRetry_spec prompt w :
  let req := request apiKey prompt in
  let policy :=
    retry_policy req
      (settle JSON_parse (server (fetches w)))
      (settle JSON_parse (server (S (fetches w))))
      (settle JSON_parse (server (S (S (fetches w))))) in
  exists w' l,
    callGeminiWithRetry apiKey JSON_parse server meanwhile prompt w = (policy.1, w')
    /\ extends w w' (Fetch req :: l)
    /\ own (Fetch req :: l) = policy.2.
Proof.
  intros req policy. subst policy. unfold callGeminiWithRetry.
  change (seq 0 3) with [0; 1; 2].
  (* first attempt *)
  rewrite retry_cons.
  destruct (attempt_spec prompt w) as (w1 & es1 & E1 & X1). rewrite E1.
  destruct (settle JSON_parse (server (fetches w))) as [v1|e1].
  { exists w1, (Ui <$> es1). split; [done|]. split; [done|].
    by rewrite own_cons, own_ui. }
  change (default 0%N (delays !! 0)) with 500%N. cbv beta iota.
  change (0 <? 2)%nat with true. cbv iota.
  destruct (sleep_spec 500 w1) as (w2 & E2 & X2). rewrite E2.
  assert (F2 : fetches w2 = S (fetches w)).
  { destruct X2 as (_ & _ & ->). destruct X1 as (_ & _ & ->).
    rewrite attempts_fetch_ui, attempts_timeout_ui. lia. }
  pose proof (extends_trans _ _ _ _ _ X1 X2) as X12.
  (* second attempt *)
  rewrite retry_cons.
  destruct (attempt_spec prompt w2) as (w3 & es3 & E3 & X3). rewrite E3, F2.
  pose proof (extends_trans _ _ _ _ _ X12 X3) as X13.
  destruct (settle JSON_parse (server (S (fetches w)))) as [v2|e2].
  { eexists w3, _. split; [done|]. split; [exact X13|].
    by own_simpl. }
  change (default 0%N (delays !! 1)) with 1000%N.
  change (1 <? 2)%nat with true. cbv iota.
  destruct (sleep_spec 1000 w3) as (w4 & E4 & X4). rewrite E4.
  assert (F4 : fetches w4 = S (S (fetches w))).
  { destruct X4 as (_ & _ & ->). destruct X3 as (_ & _ & ->).
    rewrite attempts_fetch_ui, attempts_timeout_ui. lia. }
  pose proof (extends_trans _ _ _ _ _ X13 X4) as X14.
  (* third attempt *)
  rewrite retry_cons.
  destruct (attempt_spec prompt w4) as (w5 & es5 & E5 & X5). rewrite E5, F4.
  pose proof (extends_trans _ _ _ _ _ X14 X5) as X15.
  destruct (settle JSON_parse (server (S (S (fetches w))))) as [v3|e3].
  { eexists w5, _. split; [done|]. split; [exact X15|].
    by own_simpl. }
  change (2 <? 2)%nat with false. cbv iota.
  eexists w5, _. split; [done|]. split; [exact X15|].
  by own_simpl.
Qed.

(** ** [handleSubmit] *)

(** A blank location: the validation message, and nothing else. *)
Lemma handleSubmit_blank w0 :
  blank (FormData.location (formData (ui w0))) ->
  handleSubmit apiKey JSON_parse server meanwhile w0 =
  (Normal (),
   mkWorld (apply_setter (setError (Some validation_message)) (ui w0))
     (log w0 ++ [PreventDefault; Set_ (setError (Some validation_message))])
     (fetches w0) (awaits w0)).
Proof.
  intros H%trim_falsy. unfold handleSubmit. rewrite H.
  unfold bind, record, call. simpl. by rewrite <- app_assoc.
Qed.

(** Any other location: the opening, the client's run, the conclusion, and
    [setLoading(false)]. *)
Lemma handleSubmit_valid w0 :
  ~ blank (FormData.location (formData (ui w0))) ->
  let req := request apiKey (prompt (formData (ui w0))) in
  let policy :=
    retry_policy req
      (settle JSON_parse (server (fetches w0)))
      (settle JSON_parse (server (S (fetches w0))))
      (settle JSON_parse (server (S (S (fetches w0))))) in
  exists w' l,
    handleSubmit apiKey JSON_parse server meanwhile w0 = (Normal (), w')
    /\ extends w0 w'
         (opening ++ (Fetch req :: l)
          ++ [conclusion policy.1; Set_ (setLoading false)])
    /\ own (Fetch req :: l) = policy.2.
Proof.
  intros Hloc req policy.
  assert (Ht : JS.truthy (JS.trim (FormData.location (formData (ui w0)))) = true).
  { destruct (JS.truthy _) eqn:E; [done|]. by apply trim_falsy in E. }
  unfold handleSubmit. rewrite Ht. cbv zeta. simpl negb. cbv iota.
  set (w1 := mkWorld (replay opening (ui w0)) (log w0 ++ opening)
               (fetches w0) (awaits w0)).
  assert (X1 : extends w0 w1 opening).
  { split; [done|]. split; [done|]. simpl. unfold attempts. simpl. lia. }
  destruct (callGeminiWithRetry_spec (prompt (formData (ui w0))) w1)
    as (w2 & l & E2 & X2 & O2).
  fold req in E2, X2, O2. change (fetches w1) with (fetches w0) in E2, O2.
  fold policy in E2, O2.
  remember (callGeminiWithRetry apiKey JSON_parse server meanwhile
              (prompt (formData (ui w0)))) as client eqn:Hclient.
  clear Hclient.
  assert (Hrun :
    forall k : M unit,
      (record PreventDefault;; call (setLoading true);; call (setError None);;
       call (setGisData None);; call (setHoveredSite None);; k)%js w0 = k w1).
  { intros k. unfold bind, record, call, w1, opening. simpl.
    by rewrite <- !app_assoc. }
  rewrite Hrun. unfold try_finally, try_catch, bind. rewrite E2.
  pose proof (extends_trans _ _ _ _ _ X1 X2) as X12.
  destruct (policy.1) as [v|err]; simpl conclusion.
  - destruct (call_spec (setGisData (Some v)) w2) as (w3 & E3 & X3). rewrite E3.
    destruct (call_spec (setLoading false) w3) as (w4 & E4 & X4). rewrite E4.
    exists w4, l. split; [done|]. split; [|done].
    pose proof (extends_trans _ _ _ _ _ (extends_trans _ _ _ _ _ X12 X3) X4) as X.
    by rewrite <- !app_assoc in X.
  - destruct (call_spec (setError (Some (JS.message err))) w2) as (w3 & E3 & X3).
    rewrite E3.
    destruct (call_spec (setLoading false) w3) as (w4 & E4 & X4). rewrite E4.
    exists w4, l. split; [done|]. split; [|done].
    pose proof (extends_trans _ _ _ _ _ (extends_trans _ _ _ _ _ X12 X3) X4) as X.
    by rewrite <- !app_assoc in X.
Qed.

End ControllerFacts.

(** ** [RealMap] *)

Section RealMapFacts.

Implicit Types (w : MapWorld) (site : Site.t) (sites : list Site.t).

Lemma addMarker_eq w site :
  addMarker w site =
  mkMapWorld (windowL w) (head w) (S (lastId w))
    (<[S (lastId w) := Leaflet.MarkerObject (marker_for site)]> (objects w))
    (mapContainerRef w)
    (Leaflet.addLayer (S (lastId w)) <$> mapInstance w)
    (markersRef w ++ [S (lastId w)]).
Proof. unfold addMarker, onMap. simpl. by rewrite !alter_insert_eq. Qed.

Lemma addMarker_lastId w site : lastId (addMarker w site) = S (lastId w).
Proof. by rewrite addMarker_eq. Qed.

Lemma addMarker_container w site :
  mapContainerRef (addMarker w site) = mapContainerRef w.
Proof. by rewrite addMarker_eq. Qed.

Lemma addMarker_markersRef w site :
  markersRef (addMarker w site) = markersRef w ++ [S (lastId w)].
Proof. by rewrite addMarker_eq. Qed.

Lemma addMarker_mapInstance w site :
  mapInstance (addMarker w site) = Leaflet.addLayer (S (lastId w)) <$> mapInstance w.
Proof. by rewrite addMarker_eq. Qed.

Lemma addMarker_objects w site :
  objects (addMarker w site) =
  <[S (lastId w) := Leaflet.MarkerObject (marker_for site)]> (objects w).
Proof. by rewrite addMarker_eq. Qed.

Lemma addMarkers_frame sites w :
  let w' := foldl addMarker w sites in
  let new := seq (S (lastId w)) (length sites) in
  lastId w' = lastId w + length sites
  /\ mapContainerRef w' = mapContainerRef w
  /\ markersRef w' = markersRef w ++ new
  /\ mapInstance w' =
       (fun m => Leaflet.mkMap (Leaflet.center m) (Leaflet.zoom m)
                   (Leaflet.layers m ∪ list_to_set new)) <$> mapInstance w.
Proof.
  revert w. induction sites as [|site sites IH]; intros w; cbv zeta.
  - simpl. split; [lia|]. split; [done|]. split; [by rewrite app_nil_r|].
    destruct (mapInstance w) as [[c z l]|]; simpl; [|done].
    do 2 f_equal. set_solver.
  - destruct (IH (addMarker w site)) as (L & C & M & I).
    rewrite addMarker_lastId in L, M, I.
    rewrite addMarker_container in C. rewrite addMarker_markersRef in M.
    rewrite addMarker_mapInstance in I.
    change (foldl addMarker w (site :: sites))
      with (foldl addMarker (addMarker w site) sites).
    change (length (site :: sites)) with (S (length sites)).
    split; [lia|]. split; [done|].
    split; [by rewrite M, <- app_assoc|].
    rewrite I. destruct (mapInstance w) as [[c z l]|]; simpl; [|done].
    do 2 f_equal. set_solver.
Qed.

Lemma addMarkers_old sites w id :
  id <= lastId w -> objects (foldl addMarker w sites) !! id = objects w !! id.
Proof.
  revert w. induction sites as [|s sites IH]; intros w Hid; [done|].
  change (foldl addMarker w (s :: sites))
    with (foldl addMarker (addMarker w s) sites).
  rewrite IH by (rewrite addMarker_lastId; lia).
  rewrite addMarker_objects. apply lookup_insert_ne. lia.
Qed.

Lemma addMarkers_new sites w i site :
  sites !! i = Some site ->
  pins (foldl addMarker w sites) (S (lastId w) + i) site.
Proof.
  revert w i. induction sites as [|s sites IH]; intros w i H.
  - by destruct i.
  - change (foldl addMarker w (s :: sites))
      with (foldl addMarker (addMarker w s) sites).
    destruct i as [|i]; simpl in H.
    + injection H as ->. unfold pins.
      rewrite addMarkers_old by (rewrite addMarker_lastId; lia).
      rewrite addMarker_objects, Nat.add_0_r. apply lookup_insert_eq.
    + replace (S (lastId w) + S i) with (S (lastId (addMarker w s)) + i)
        by (rewrite addMarker_lastId; lia).
      by apply IH.
Qed.

Lemma removeLayers_eq (ms : list nat) w :
  foldl (fun w marker => onMap (Leaflet.removeLayer marker) w) w ms =
  mkMapWorld (windowL w) (head w) (lastId w) (objects w) (mapContainerRef w)
    ((fun m => Leaflet.mkMap (Leaflet.center m) (Leaflet.zoom m)
                 (Leaflet.layers m ∖ list_to_set ms)) <$> mapInstance w)
    (markersRef w).
Proof.
  revert w. induction ms as [|m ms IH]; intros w; simpl.
  - destruct w as [? ? ? ? ? [[c z l]|] ?]; simpl; [|done].
    do 3 f_equal. set_solver.
  - rewrite IH. unfold onMap. simpl. f_equal.
    destruct (mapInstance w) as [[c z l]|]; simpl; [|done].
    do 2 f_equal. set_solver.
Qed.

Lemma clearMarkers_eq w :
  clearMarkers w =
  mkMapWorld (windowL w) (head w) (lastId w) (objects w) (mapContainerRef w)
    ((fun m => Leaflet.mkMap (Leaflet.center m) (Leaflet.zoom m)
                 (Leaflet.layers m ∖ list_to_set (markersRef w))) <$> mapInstance w)
    [].
Proof. unfold clearMarkers. by rewrite removeLayers_eq. Qed.

Lemma pins_is_marker w id site : pins w id site -> is_marker w id = true.
Proof. unfold pins, is_marker. by intros ->. Qed.

Lemma shows_is_marker w sites id :
  Forall2 (pins w) (markersRef w) sites -> id ∈ markersRef w -> is_marker w id = true.
Proof.
  intros F [i Hi]%list_elem_of_lookup.
  destruct (Forall2_lookup_l _ _ _ _ _ F Hi) as (site & _ & P).
  by eapply pins_is_marker.
Qed.

Lemma loadLeaflet_shows w sites : map_shows w sites -> map_shows (loadLeaflet w) sites.
Proof. unfold loadLeaflet. by destruct (windowL w). Qed.

Lemma initMap_is_Some w : is_Some (mapInstance (initMap w)).
Proof. unfold initMap. destruct (mapInstance w) eqn:E; simpl; [by rewrite E | done]. Qed.

Lemma initMap_container w : mapContainerRef (initMap w) = mapContainerRef w.
Proof. unfold initMap. by destruct (mapInstance w). Qed.

Lemma initMap_shows w sites : map_shows w sites -> map_shows (initMap w) sites.
Proof.
  intros (C & F & N & M). unfold initMap.
  destruct (mapInstance w) as [map|] eqn:E.
  { unfold map_shows. by rewrite E. }
  rewrite M in F. apply Forall2_nil_inv_l in F as ->.
  split; [done|]. simpl. rewrite M. split; [constructor|]. split; [constructor|].
  exists (S (lastId w)). split; [set_solver|]. split; [|done].
  unfold is_marker. simpl. by rewrite lookup_insert_eq.
Qed.

(** The effect for a result, once the container is mounted: the view
    moves, the old markers go, the new ones come. *)
Lemma effect_Some d w :
  mapContainerRef w = true ->
  effect (Some d) w =
  foldl addMarker
    (clearMarkers
       (onMap (Leaflet.setView
                 (CityCenter.lat (GisData.cityCenter d),
                  CityCenter.lng (GisData.cityCenter d)) 13)
          (initMap (loadLeaflet w))))
    (GisData.sites d).
Proof.
  intros C. unfold effect.
  assert (C' : mapContainerRef (loadLeaflet w) = true).
  { unfold loadLeaflet. by destruct (windowL w). }
  rewrite C'. simpl.
  by destruct (initMap_is_Some (loadLeaflet w)) as [map ->].
Qed.

Lemma effect_None w :
  mapContainerRef w = true -> effect None w = initMap (loadLeaflet w).
Proof.
  intros C. unfold effect.
  assert (C' : mapContainerRef (loadLeaflet w) = true).
  { unfold loadLeaflet. by destruct (windowL w). }
  by rewrite C'.
Qed.

(** After the markers of [sites] were added to a map cleared of markers. *)
Lemma replaced_shows w sites d :
  map_shows w sites ->
  is_Some (mapInstance w) ->
  map_shows
    (foldl addMarker
       (clearMarkers
          (onMap (Leaflet.setView
                    (CityCenter.lat (GisData.cityCenter d),
                     CityCenter.lng (GisData.cityCenter d)) 13) w))
       (GisData.sites d))
    (GisData.sites d).
Proof.
  intros (C & F & N & M) [map E]. rewrite E in M.
  destruct M as (tile & Hl & Ht & Hle).
  set (w3 := clearMarkers _).
  assert (E3 : mapInstance w3 =
               Some (Leaflet.mkMap
                       (CityCenter.lat (GisData.cityCenter d),
                        CityCenter.lng (GisData.cityCenter d)) 13
                       (Leaflet.layers map ∖ list_to_set (markersRef w)))).
  { unfold w3. rewrite clearMarkers_eq. simpl. by rewrite E. }
  assert (L3 : lastId w3 = lastId w) by (unfold w3; by rewrite clearMarkers_eq).
  assert (O3 : objects w3 = objects w) by (unfold w3; by rewrite clearMarkers_eq).
  assert (R3 : markersRef w3 = []) by (unfold w3; by rewrite clearMarkers_eq).
  assert (C3 : mapContainerRef w3 = true) by (unfold w3; by rewrite clearMarkers_eq).
  clearbody w3.
  destruct (addMarkers_frame (GisData.sites d) w3) as (L4 & C4 & R4 & I4).
  rewrite R3 in R4. rewrite E3 in I4. simpl in R4, I4.
  assert (Hnot : tile ∉ markersRef w).
  { intros Hin. rewrite (shows_is_marker _ _ _ F Hin) in Ht. done. }
  split; [congruence|]. split; [|split].
  - rewrite R4. apply Forall2_same_length_lookup_2; [by rewrite length_seq|].
    intros i id site [-> _]%lookup_seq Hs. by apply addMarkers_new.
  - rewrite R4. apply NoDup_seq.
  - rewrite I4. exists tile. split; [|split].
    + simpl. rewrite R4, Hl. set_solver.
    + unfold is_marker. rewrite addMarkers_old by lia. rewrite O3. apply Ht.
    + lia.
Qed.

(** One effect keeps the renderer consistent; a result replaces the sites
    shown, [null] leaves them. *)
Lemma effect_shows r w sites :
  map_shows w sites ->
  map_shows (effect r w)
    (match r with Some d => GisData.sites d | None => sites end).
Proof.
  intros H. pose proof H as (C & _).
  assert (H1 : map_shows (initMap (loadLeaflet w)) sites)
    by by apply initMap_shows, loadLeaflet_shows.
  destruct r as [d|].
  - rewrite effect_Some by done.
    apply (replaced_shows _ sites); [done | apply initMap_is_Some].
  - by rewrite effect_None.
Qed.

Lemma render_all_shows results w sites :
  map_shows w sites ->
  map_shows (render_all results w)
    (foldl (fun shown r =>
              match r with
              | Some d => GisData.sites d
              | None => shown
              end) sites results).
Proof.
  revert w sites. induction results as [|r results IH]; intros w sites H; [done|].
  apply IH. by apply effect_shows.
Qed.

Lemma mountedMap_shows : map_shows mountedMap [].
Proof. split; [done|]. split; [constructor|]. split; [constructor|]. done. Qed.

Lemma shows_on_map w sites :
  map_shows w sites -> markers_on_map w = list_to_set (markersRef w).
Proof.
  intros (_ & F & _ & M). unfold markers_on_map.
  destruct (mapInstance w) as [map|]; [|by rewrite M].
  destruct M as (tile & -> & Ht & _).
  apply set_eq. intros id. rewrite elem_of_filter, elem_of_union,
    elem_of_singleton, elem_of_list_to_set.
  split.
  - intros [Hm [->|Hin]]; [congruence | done].
  - intros Hin. split; [by eapply shows_is_marker | by right].
Qed.

End RealMapFacts.

(** ** Suspensions of the client *)

Section TimelineFacts.

Variable apiKey : jsstring.
Variable JSON_parse : jsstring -> option GisData.t.
Variable server : nat -> Reply.
Variable meanwhile : nat -> list UiEvent.

Lemma attempts_slots a n : attempts (slots meanwhile a n) = 0.
Proof.
  revert a. induction n as [|n IH]; intros a; [done|].
  simpl. rewrite attempts_app, IH. unfold slot. by rewrite attempts_ui.
Qed.

Lemma own_slots a n : own (slots meanwhile a n) = [].
Proof.
  revert a. induction n as [|n IH]; intros a; [done|].
  simpl. rewrite own_app, IH. unfold slot. by rewrite own_ui.
Qed.

Lemma attempts_attempt_timeline req a r :
  attempts (attempt_timeline meanwhile req a r) = 1.
Proof.
  unfold attempt_timeline.
  change (Fetch req :: slots meanwhile a (attempt_awaits r))
    with ([Fetch req] ++ slots meanwhile a (attempt_awaits r)).
  by rewrite attempts_app, attempts_slots.
Qed.

Lemma attempts_wait_timeline a ms :
  attempts (wait_timeline meanwhile a ms) = 0.
Proof.
  unfold wait_timeline.
  change (SetTimeout ms :: slots meanwhile a 1)
    with ([SetTimeout ms] ++ slots meanwhile a 1).
  by rewrite attempts_app, attempts_slots.
Qed.

Lemma suspend_exact w :
  exists w',
    suspend meanwhile w = (Normal (), w')
    /\ extends w w' (slots meanwhile (awaits w) 1)
    /\ awaits w' = S (awaits w).
Proof.
  eexists. split; [reflexivity|]. rewrite foldl_handle_ui.
  simpl. rewrite app_nil_r. split; [|done].
  split; [done|]. split; [done|]. simpl. unfold slot. rewrite attempts_ui. lia.
Qed.

Lemma fetch_exact req w :
  exists w',
    fetch server meanwhile req w =
      (match server (fetches w) with
       | Rejects e => Throw e
       | Resolves r => Normal r
       end, w')
    /\ extends w w' (Fetch req :: slots meanwhile (awaits w) 1)
    /\ awaits w' = S (awaits w).
Proof.
  unfold fetch, bind, record, suspend. rewrite foldl_handle_ui. simpl.
  rewrite app_nil_r. unfold slot.
  assert (Hext :
    extends w
      (mkWorld (replay (Ui <$> meanwhile (awaits w)) (ui w))
         ((log w ++ [Fetch req]) ++ (Ui <$> meanwhile (awaits w)))
         (S (fetches w)) (S (awaits w)))
      (Fetch req :: (Ui <$> meanwhile (awaits w)))).
  { split; [by rewrite <- app_assoc|]. split; [done|].
    rewrite attempts_fetch_ui. simpl. lia. }
  destruct (server (fetches w)); eexists; (split; [reflexivity | by split]).
Qed.

Lemma json_exact r w :
  exists w',
    json meanwhile r w =
      (match json_body r with
       | Some d => Normal d
       | None => Throw (JS.mkError JS.SyntaxError (js "Unexpected token"))
       end, w')
    /\ extends w w' (slots meanwhile (awaits w) 1)
    /\ awaits w' = S (awaits w).
Proof.
  destruct (suspend_exact w) as (w' & E & X & A).
  unfold json, bind. rewrite E.
  destruct (json_body r); eexists; (split; [reflexivity | by split]).
Qed.

(** The wait: the timer is set and the client is suspended once. *)
Lemma sleep_exact ms w :
  exists w',
    sleep meanwhile ms w = (Normal (), w')
    /\ extends w w' (wait_timeline meanwhile (awaits w) ms)
    /\ awaits w' = S (awaits w).
Proof.
  unfold sleep, bind, record, suspend. rewrite foldl_handle_ui. simpl.
  eexists. split; [reflexivity|]. unfold wait_timeline. simpl.
  rewrite app_nil_r. unfold slot. split; [|done].
  split; [by rewrite <- app_assoc|]. split; [done|].
  rewrite attempts_timeout_ui. simpl. lia.
Qed.

Lemma attempt_exact prompt w :
  let r := server (fetches w) in
  exists w',
    attempt apiKey JSON_parse server meanwhile prompt w
    = (settle JSON_parse r, w')
    /\ extends w w'
         (attempt_timeline meanwhile (request apiKey prompt) (awaits w) r)
    /\ awaits w' = awaits w + attempt_awaits r.
Proof.
  intros r. subst r. unfold attempt, bind, attempt_timeline.
  destruct (fetch_exact (request apiKey prompt) w) as (w1 & E1 & X1 & A1).
  rewrite E1.
  destruct (server (fetches w)) as [e|r]; simpl.
  { exists w1. split; [done|]. split; [done | lia]. }
  destruct (ok r); simpl; [|exists w1; split; [done|]; split; [done | lia]].
  destruct (json_exact r w1) as (w2 & E2 & X2 & A2). rewrite E2.
  assert (X : extends w w2
                (Fetch (request apiKey prompt) :: slots meanwhile (awaits w) 2)).
  { pose proof (extends_trans _ _ _ _ _ X1 X2) as X. rewrite A1 in X.
    simpl in X. rewrite !app_nil_r in X. simpl. by rewrite app_nil_r. }
  assert (A : awaits w2 = awaits w + 2) by lia.
  destruct (json_body r) as [[|text]|]; simpl; [| |by eauto].
  - by eauto.
  - unfold parse. destruct (text ≫= JSON_parse); by eauto.
Qed.

(** The whole run of the client, suspensions included. *)
Lemma callGeminiWithRetry_exact prompt w :
  let req := request apiKey prompt in
  let r1 := server (fetches w) in
  let r2 := server (S (fetches w)) in
  let r3 := server (S (S (fetches w))) in
  let timeline := retry_timeline JSON_parse meanwhile req r1 r2 r3 (awaits w) in
  exists w',
    callGeminiWithRetry apiKey JSON_parse server meanwhile prompt w
    = ((retry_policy req (settle JSON_parse r1) (settle JSON_parse r2)
          (settle JSON_parse r3)).1, w')
    /\ extends w w' timeline.1
    /\ awaits w' = timeline.2.
Proof.
  intros req r1 r2 r3 timeline. subst timeline. unfold retry_timeline.
  unfold callGeminiWithRetry. change (seq 0 3) with [0; 1; 2].
  rewrite retry_cons.
  destruct (attempt_exact prompt w) as (w1 & E1 & X1 & A1). rewrite E1.
  fold r1 in X1, A1 |- *. fold req in X1.
  destruct (settle JSON_parse r1) as [v1|e1].
  { exists w1. split; [done|]. by split. }
  change (default 0%N (delays !! 0)) with 500%N.
  change (0 <? 2)%nat with true. cbv iota.
  destruct (sleep_exact 500 w1) as (w2 & E2 & X2 & A2). rewrite E2.
  rewrite A1 in X2.
  assert (F2 : fetches w2 = S (fetches w)).
  { destruct X2 as (_ & _ & ->). destruct X1 as (_ & _ & ->).
    rewrite attempts_attempt_timeline, attempts_wait_timeline. lia. }
  assert (A2' : awaits w2 = S (awaits w + attempt_awaits r1)) by lia.
  pose proof (extends_trans _ _ _ _ _ X1 X2) as X12.
  rewrite retry_cons.
  destruct (attempt_exact prompt w2) as (w3 & E3 & X3 & A3). rewrite E3.
  rewrite F2 in X3, A3 |- *. rewrite A2' in X3. fold r2 in X3, A3 |- *.
  fold req in X3.
  pose proof (extends_trans _ _ _ _ _ X12 X3) as X13.
  rewrite <- app_assoc in X13.
  destruct (settle JSON_parse r2) as [v2|e2].
  { exists w3. split; [done|]. split; [exact X13 | simpl; lia]. }
  change (default 0%N (delays !! 1)) with 1000%N.
  change (1 <? 2)%nat with true. cbv iota.
  destruct (sleep_exact 1000 w3) as (w4 & E4 & X4 & A4). rewrite E4.
  assert (A3' : awaits w3
                = S (awaits w + attempt_awaits r1) + attempt_awaits r2) by lia.
  rewrite A3' in X4.
  assert (F4 : fetches w4 = S (S (fetches w))).
  { destruct X4 as (_ & _ & ->). destruct X3 as (_ & _ & ->).
    rewrite attempts_attempt_timeline, attempts_wait_timeline. lia. }
  pose proof (extends_trans _ _ _ _ _ X13 X4) as X14.
  rewrite <- !app_assoc in X14.
  rewrite retry_cons.
  destruct (attempt_exact prompt w4) as (w5 & E5 & X5 & A5). rewrite E5.
  rewrite F4 in X5, A5 |- *. fold r3 in X5, A5 |- *. fold req in X5.
  assert (A4' : awaits w4
                = S (S (awaits w + attempt_awaits r1) + attempt_awaits r2))
    by lia.
  rewrite A4' in X5.
  pose proof (extends_trans _ _ _ _ _ X14 X5) as X15.
  rewrite <- !app_assoc in X15.
  assert (A5' : awaits w5
                = S (S (awaits w + attempt_awaits r1) + attempt_awaits r2)
                  + attempt_awaits r3) by lia.
  change (2 <? 2)%nat with false. cbv iota.
  destruct (settle JSON_parse r3) as [v3|e3];
    (exists w5; split; [done|]; by split).
Qed.

(** A valid submission, suspensions included. *)
Lemma handleSubmit_exact w0 :
  ~ blank (FormData.location (formData (ui w0))) ->
  let req := request apiKey (prompt (formData (ui w0))) in
  let r1 := server (fetches w0) in
  let r2 := server (S (fetches w0)) in
  let r3 := server (S (S (fetches w0))) in
  let timeline := retry_timeline JSON_parse meanwhile req r1 r2 r3 (awaits w0) in
  let policy :=
    retry_policy req (settle JSON_parse r1) (settle JSON_parse r2)
      (settle JSON_parse r3) in
  exists w',
    handleSubmit apiKey JSON_parse server meanwhile w0 = (Normal (), w')
    /\ added w0 w'
       = opening ++ timeline.1
         ++ [conclusion policy.1; Set_ (setLoading false)]
    /\ awaits w' = timeline.2.
Proof.
  intros Hloc req r1 r2 r3 timeline policy.
  assert (Ht : JS.truthy (JS.trim (FormData.location (formData (ui w0)))) = true).
  { destruct (JS.truthy _) eqn:E; [done|]. by apply trim_falsy in E. }
  unfold handleSubmit. rewrite Ht. cbv zeta. simpl negb. cbv iota.
  set (w1 := mkWorld (replay opening (ui w0)) (log w0 ++ opening)
               (fetches w0) (awaits w0)).
  destruct (callGeminiWithRetry_exact (prompt (formData (ui w0))) w1)
    as (w2 & E2 & X2 & A2).
  change (fetches w1) with (fetches w0) in E2, X2, A2.
  change (awaits w1) with (awaits w0) in X2, A2.
  fold req r1 r2 r3 in E2, X2, A2. fold timeline in X2, A2. fold policy in E2.
  remember (callGeminiWithRetry apiKey JSON_parse server meanwhile
              (prompt (formData (ui w0)))) as client eqn:Hclient.
  clear Hclient.
  assert (Hrun :
    forall k : M unit,
      (record PreventDefault;; call (setLoading true);; call (setError None);;
       call (setGisData None);; call (setHoveredSite None);; k)%js w0 = k w1).
  { intros k. unfold bind, record, call, w1, opening. simpl.
    by rewrite <- !app_assoc. }
  rewrite Hrun. unfold try_finally, try_catch, bind. rewrite E2.
  destruct X2 as (L2 & _ & _). simpl in L2.
  assert (Hadd : forall c,
            added w0
              (mkWorld (apply_setter (setLoading false)
                          (replay_entry (ui w2) c))
                 ((log w2 ++ [c]) ++ [Set_ (setLoading false)])
                 (fetches w2) (awaits w2))
            = opening ++ timeline.1 ++ [c; Set_ (setLoading false)]).
  { intros c. unfold added. simpl. rewrite L2, <- !app_assoc.
    by rewrite drop_app_length. }
  destruct (policy.1) as [v|err]; simpl conclusion.
  - eexists. split; [reflexivity|]. split; [|exact A2].
    apply (Hadd (Set_ (setGisData (Some v)))).
  - eexists. split; [reflexivity|]. split; [|exact A2].
    apply (Hadd (Set_ (setError (Some (JS.message err))))).
Qed.

End TimelineFacts.

(** * The claims *)

Section ControllerClaims.

Variable apiKey : jsstring.
Variable JSON_parse : jsstring -> option GisData.t.
Variable server : nat -> Reply.
Variable meanwhile : nat -> list UiEvent.

Lemma attempts_cons e l :
  attempts (e :: l) = (if is_fetch e then 1 else 0) + attempts l.
Proof. by destruct e. Qed.

Lemma attempts_own l : attempts (own l) = attempts l.
Proof.
  induction l as [|e l IH]; [done|].
  destruct (is_ui e) eqn:Hui.
  - by destruct e.
  - rewrite own_cons, !attempts_cons by done. by rewrite IH.
Qed.

Lemma policy_quiet req a1 a2 a3 st :
  replay (retry_policy req a1 a2 a3).2 st = st.
Proof. by destruct a1, a2, a3. Qed.

Lemma policy_attempts req a1 a2 a3 :
  attempts (retry_policy req a1 a2 a3).2 <= 3.
Proof. destruct a1, a2, a3; unfold attempts; simpl; lia. Qed.

Lemma own_conclusion c :
  own [conclusion c; Set_ (setLoading false)]
  = [conclusion c; Set_ (setLoading false)].
Proof. by destruct c. Qed.

(** What a valid submission comes to, read off its log. *)
Lemma handleSubmit_outcome w0 :
  ~ blank (FormData.location (formData (ui w0))) ->
  let req := request apiKey (prompt (formData (ui w0))) in
  let policy :=
    retry_policy req
      (settle JSON_parse (server (fetches w0)))
      (settle JSON_parse (server (S (fetches w0))))
      (settle JSON_parse (server (S (S (fetches w0))))) in
  exists w' l,
    handleSubmit apiKey JSON_parse server meanwhile w0 = (Normal (), w')
    /\ log w' = log w0 ++ opening ++ (Fetch req :: l)
                 ++ [conclusion policy.1; Set_ (setLoading false)]
    /\ own (added w0 w')
       = opening ++ policy.2 ++ [conclusion policy.1; Set_ (setLoading false)]
    /\ controlled (ui w')
       = controlled
           (replay [conclusion policy.1; Set_ (setLoading false)]
              (replay opening (ui w0)))
    /\ fetches w' = fetches w0 + attempts policy.2.
Proof.
  intros Hloc req policy.
  destruct (handleSubmit_valid apiKey JSON_parse server meanwhile w0 Hloc)
    as (w' & l & E & X & O).
  fold req in X, O. fold policy in X, O.
  pose proof X as (L & U & F).
  assert (Own : own (opening ++ (Fetch req :: l)
                     ++ [conclusion policy.1; Set_ (setLoading false)])
                = opening ++ policy.2
                  ++ [conclusion policy.1; Set_ (setLoading false)]).
  { rewrite !own_app, O, own_conclusion. done. }
  exists w', l. split; [done|]. split; [done|]. split; [|split].
  - by rewrite (extends_added _ _ _ X).
  - rewrite U, (controlled_replay_own _ _ (ui w0)) by done.
    rewrite Own, !replay_app. unfold policy. by rewrite policy_quiet.
  - rewrite F, <- attempts_own, Own, !attempts_app.
    destruct (policy.1); unfold attempts at 1 3; simpl; lia.
Qed.

(** C1: [callGeminiWithRetry] follows the retry policy.  Each attempt
    completes as [settle] says of the reply it gets, and [settle] throws on
    a network failure, on a status outside 2xx and on a body or a candidate
    text that is not JSON; the client's completion and its requests and
    timers are those of [retry_policy] (a first success ends the loop; 500ms
    after the first failure, 1000ms after the second; after a third failure
    the error [Failed to connect to AI. Please try again.]); so at most
    three requests are sent.  And the client waits: its whole run is
    [retry_timeline], in which each timer set is followed by one suspension
    of the client, on that timer, during which the page handles its events,
    and only then by the next request; the suspensions of the run are
    those of its attempts and one for each timer. *)
Theorem callGeminiWithRetry_retry_policy (prompt : jsstring) (w : World) :
  let run := callGeminiWithRetry apiKey JSON_parse server meanwhile prompt w in
  let req := request apiKey prompt in
  let policy :=
    retry_policy req
      (settle JSON_parse (server (fetches w)))
      (settle JSON_parse (server (S (fetches w))))
      (settle JSON_parse (server (S (S (fetches w))))) in
  (forall w1,
     (attempt apiKey JSON_parse server meanwhile prompt w1).1
     = settle JSON_parse (server (fetches w1)))
  /\ (forall err, settle JSON_parse (Rejects err) = Throw err)
  /\ (forall r, ok r = false ->
        exists err, settle JSON_parse (Resolves r) = Throw err)
  /\ (forall st, exists err,
        settle JSON_parse (Resolves (mkResponse st None)) = Throw err)
  /\ (forall st text,
        text ≫= JSON_parse = None ->
        exists err,
          settle JSON_parse (Resolves (mkResponse st (Some (JsonValue text))))
          = Throw err)
  /\ run.1 = policy.1
  /\ own (added w run.2) = policy.2
  /\ attempts (added w run.2) <= 3
  /\ fetches run.2 = fetches w + attempts (added w run.2)
  /\ (forall e1 e2 e3,
        (retry_policy req (Throw e1) (Throw e2) (Throw e3)).1
        = Throw (JS.mkError JS.Error
                   (js "Failed to connect to AI. Please try again.")))
  /\ (let timeline :=
        retry_timeline JSON_parse meanwhile req
          (server (fetches w)) (server (S (fetches w)))
          (server (S (S (fetches w)))) (awaits w) in
      added w run.2 = timeline.1 /\ awaits run.2 = timeline.2)
  /\ (forall a ms,
        wait_timeline meanwhile a ms = SetTimeout ms :: (Ui <$> meanwhile a)).
Proof.
  intros run req policy.
  split.
  { intros w1.
    destruct (attempt_spec apiKey JSON_parse server meanwhile prompt w1)
      as (w' & es & E & _).
    by rewrite E. }
  split; [done|].
  split.
  { intros r Hr. simpl. rewrite Hr. eauto. }
  split.
  { intros st. simpl. destruct (ok _); eauto. }
  split.
  { intros st text Ht. simpl. rewrite Ht. destruct (ok _); eauto. }
  destruct (callGeminiWithRetry_spec apiKey JSON_parse server meanwhile prompt w)
    as (w' & l & E & X & O).
  fold req in X, O. fold policy in E, O.
  subst run. rewrite E. simpl.
  rewrite (extends_added _ _ _ X).
  split; [done|]. split; [done|].
  split; [rewrite <- attempts_own, O; apply policy_attempts|].
  split; [apply X|]. split; [done|].
  split.
  - destruct (callGeminiWithRetry_exact apiKey JSON_parse server meanwhile
                prompt w) as (w2 & E2 & X2 & A2).
    rewrite E in E2. injection E2 as <-.
    split; [by rewrite <- (extends_added _ _ _ X), (extends_added _ _ _ X2)|].
    exact A2.
  - intros a ms. unfold wait_timeline, slot. simpl. by rewrite app_nil_r.
Qed.

Lemma stores_result_own l :
  filter (fun e => stores_result e = true) (own l)
  = filter (fun e => stores_result e = true) l.
Proof.
  induction l as [|e l IH]; [done|].
  destruct (is_ui e) eqn:Hui.
  - by destruct e.
  - rewrite own_cons by done.
    destruct (stores_result e) eqn:Hs.
    + rewrite !filter_cons_True by done. by rewrite IH.
    + rewrite !filter_cons_False by (by rewrite Hs). exact IH.
Qed.

(** C2: with a location that is empty or white space only, [handleSubmit]
    sends no request, sets the error to the validation message, and leaves
    the loading flag and the rest of the state as they were. *)
Theorem blank_location_is_rejected (w0 : World) :
  blank (FormData.location (formData (ui w0))) ->
  let run := handleSubmit apiKey JSON_parse server meanwhile w0 in
  run.1 = Normal ()
  /\ added w0 run.2
     = [PreventDefault;
        Set_ (setError
                (Some (js "Please enter a target location (City, State, or Region).")))]
  /\ attempts (added w0 run.2) = 0
  /\ fetches run.2 = fetches w0
  /\ ui run.2
     = mkAppState (formData (ui w0)) (loading (ui w0)) (gisData (ui w0))
         (Some (js "Please enter a target location (City, State, or Region)."))
         (hoveredSite (ui w0)).
Proof.
  intros H run. subst run. rewrite handleSubmit_blank by done.
  unfold added. simpl. rewrite drop_app_length. done.
Qed.


(** C5: when the first two attempts throw and the third returns a result,
    the submission ends in success: three requests with the waits of 500ms
    and 1000ms between them, the result stored once, no error, not
    loading.  The waits are waits: in the whole log each of the two timers
    is followed by one suspension of the handler, on that timer, and only
    then by the next request; the handler was suspended once for each
    [await] of the three attempts and once for each of the two timers. *)
Theorem two_failures_then_success (w0 : World) (e1 e2 : JS.error)
    (parsedData : GisData.t) :
  ~ blank (FormData.location (formData (ui w0))) ->
  settle JSON_parse (server (fetches w0)) = Throw e1 ->
  settle JSON_parse (server (S (fetches w0))) = Throw e2 ->
  settle JSON_parse (server (S (S (fetches w0)))) = Normal parsedData ->
  let run := handleSubmit apiKey JSON_parse server meanwhile w0 in
  let req := request apiKey (prompt (formData (ui w0))) in
  run.1 = Normal ()
  /\ own (added w0 run.2)
     = [PreventDefault; Set_ (setLoading true); Set_ (setError None);
        Set_ (setGisData None); Set_ (setHoveredSite None);
        Fetch req; SetTimeout 500; Fetch req; SetTimeout 1000; Fetch req;
        Set_ (setGisData (Some parsedData)); Set_ (setLoading false)]
  /\ attempts (added w0 run.2) = 3
  /\ length (filter (fun e => stores_result e = true) (added w0 run.2)) = 1
  /\ gisData (ui run.2) = Some parsedData
  /\ error (ui run.2) = None
  /\ loading (ui run.2) = false
  /\ (let r1 := server (fetches w0) in
      let r2 := server (S (fetches w0)) in
      let r3 := server (S (S (fetches w0))) in
      let a1 := awaits w0 + attempt_awaits r1 in
      let a2 := S a1 + attempt_awaits r2 in
      let a3 := S a2 + attempt_awaits r3 in
      added w0 run.2
      = [PreventDefault; Set_ (setLoading true); Set_ (setError None);
         Set_ (setGisData None); Set_ (setHoveredSite None)]
        ++ attempt_timeline meanwhile req (awaits w0) r1
        ++ wait_timeline meanwhile a1 500
        ++ attempt_timeline meanwhile req (S a1) r2
        ++ wait_timeline meanwhile a2 1000
        ++ attempt_timeline meanwhile req (S a2) r3
        ++ [Set_ (setGisData (Some parsedData)); Set_ (setLoading false)]
      /\ awaits run.2 = a3)
  /\ (forall a ms,
        wait_timeline meanwhile a ms = SetTimeout ms :: (Ui <$> meanwhile a)).
Proof.
  intros H A1 A2 A3 run req.
  destruct (handleSubmit_outcome w0 H) as (w' & l & E & L & O & C & F).
  rewrite A1, A2, A3 in O, C, F. simpl in O, C, F.
  destruct (handleSubmit_exact apiKey JSON_parse server meanwhile w0 H)
    as (w2 & E2 & T2 & W2).
  rewrite E in E2. injection E2 as <-.
  unfold retry_timeline in T2, W2. rewrite A1, A2, A3 in T2. rewrite A1, A2 in W2.
  fold req in T2. cbv beta iota zeta in T2, W2. cbn [fst snd conclusion] in T2, W2.
  subst run. rewrite E. simpl fst. simpl snd.
  split; [done|]. split; [exact O|].
  split; [by rewrite <- attempts_own, O|].
  split; [by rewrite <- stores_result_own, O|].
  assert (C' : gisData (ui w') = Some parsedData /\ error (ui w') = None
               /\ loading (ui w') = false).
  { revert C. unfold controlled. simpl. by intros [= -> -> ->]. }
  destruct C' as (? & ? & ?).
  split; [done|]. split; [done|]. split; [done|].
  split.
  - cbv zeta. split; [|exact W2]. rewrite T2.
    unfold opening. by rewrite <- !app_assoc.
  - intros a ms. unfold wait_timeline, slot. simpl. by rewrite app_nil_r.
Qed.

(** C6: when all three attempts throw, the submission ends with the error
    [Failed to connect to AI. Please try again.], no result, not loading. *)
Theorem three_failures (w0 : World) (e1 e2 e3 : JS.error) :
  ~ blank (FormData.location (formData (ui w0))) ->
  settle JSON_parse (server (fetches w0)) = Throw e1 ->
  settle JSON_parse (server (S (fetches w0))) = Throw e2 ->
  settle JSON_parse (server (S (S (fetches w0)))) = Throw e3 ->
  let run := handleSubmit apiKey JSON_parse server meanwhile w0 in
  run.1 = Normal ()
  /\ error (ui run.2) = Some (js "Failed to connect to AI. Please try again.")
  /\ gisData (ui run.2) = None
  /\ loading (ui run.2) = false
  /\ attempts (added w0 run.2) = 3.
Proof.
  intros H A1 A2 A3 run.
  destruct (handleSubmit_outcome w0 H) as (w' & l & E & L & O & C & F).
  rewrite A1, A2, A3 in O, C, F. simpl in O, C, F.
  subst run. rewrite E. simpl fst. simpl snd.
  split; [done|].
  revert C. unfold controlled. simpl. intros [= -> -> ->].
  split; [done|]. split; [done|]. split; [done|].
  by rewrite <- attempts_own, O.
Qed.

End ControllerClaims.

Lemma not_blank_cons c s : JS.is_white_space c = false -> ~ blank (c :: s).
Proof. intros Hc H. apply Forall_cons in H as [H _]. congruence. Qed.

(** A location of two spaces and a tab, submitted while the service would
    answer. *)
Lemma blank_location_is_rejected_witness :
  blank [32%N; 32%N; 9%N]
  /\ let w0 :=
       Sample.world
         (FormData.mk [32%N; 32%N; 9%N] (js "urban-dense")
            (js "highway-adjacent") (js "retail") (js "medium")) in
     let run :=
       handleSubmit Sample.apiKey Sample.JSON_parse Sample.flaky Sample.busy w0 in
     fetches run.2 = 0
     /\ error (ui run.2)
        = Some (js "Please enter a target location (City, State, or Region).")
     /\ loading (ui run.2) = false.
Proof.
  assert (B : blank [32%N; 32%N; 9%N]) by (repeat constructor).
  split; [exact B|].
  pose proof (blank_location_is_rejected Sample.apiKey Sample.JSON_parse
                Sample.flaky Sample.busy
                (Sample.world
                   (FormData.mk [32%N; 32%N; 9%N] (js "urban-dense")
                      (js "highway-adjacent") (js "retail") (js "medium"))) B)
    as (_ & _ & _ & F & U).
  cbv zeta. rewrite U, F. repeat split.
Defined.


Lemma two_failures_then_success_witness :
  ~ blank (FormData.location Sample.miami)
  /\ let run :=
       handleSubmit Sample.apiKey Sample.JSON_parse Sample.flaky Sample.busy
         (Sample.world Sample.miami) in
     gisData (ui run.2) = Some Sample.result
     /\ error (ui run.2) = None
     /\ attempts (added (Sample.world Sample.miami) run.2) = 3
     /\ awaits run.2 = 6.
Proof.
  assert (B : ~ blank (FormData.location Sample.miami))
    by (by apply not_blank_cons).
  split; [exact B|].
  pose proof (two_failures_then_success Sample.apiKey Sample.JSON_parse
                Sample.flaky Sample.busy (Sample.world Sample.miami)
                _ _ Sample.result B eq_refl eq_refl eq_refl)
    as (_ & _ & A & _ & G & E & _ & (_ & W) & _).
  cbv zeta. repeat split; assumption.
Defined.

Lemma three_failures_witness :
  ~ blank (FormData.location Sample.miami)
  /\ let run :=
       handleSubmit Sample.apiKey Sample.JSON_parse Sample.down Sample.busy
         (Sample.world Sample.miami) in
     error (ui run.2) = Some (js "Failed to connect to AI. Please try again.")
     /\ gisData (ui run.2) = None
     /\ loading (ui run.2) = false.
Proof.
  assert (B : ~ blank (FormData.location Sample.miami))
    by (by apply not_blank_cons).
  split; [exact B|].
  pose proof (three_failures Sample.apiKey Sample.JSON_parse
                Sample.down Sample.busy (Sample.world Sample.miami)
                _ _ _ B eq_refl eq_refl eq_refl)
    as (_ & E & G & L & _).
  cbv zeta. repeat split; assumption.
Defined.

(** ** The prompt *)

Section PromptClaims.

Implicit Types fd : FormData.t.

Lemma includes_location fd :
  JS.includes (FormData.location fd) (prompt fd) = true.
Proof.
  apply includes_spec. unfold prompt.
  apply occurs_app_r, occurs_here.
Qed.

Lemma includes_demographics fd :
  JS.includes (JS.replace (js "-") (js " ") (FormData.demographics fd))
    (prompt fd) = true.
Proof.
  apply includes_spec. unfold prompt.
  do 3 apply occurs_app_r. apply occurs_here.
Qed.

Lemma includes_traffic fd :
  JS.includes (JS.replace (js "-") (js " ") (FormData.traffic fd))
    (prompt fd) = true.
Proof.
  apply includes_spec. unfold prompt.
  do 5 apply occurs_app_r. apply occurs_here.
Qed.

Lemma includes_amenities fd :
  JS.includes (JS.replace (js "-") (js " ") (FormData.amenities fd))
    (prompt fd) = true.
Proof.
  apply includes_spec. unfold prompt.
  do 7 apply occurs_app_r. apply occurs_here.
Qed.

Lemma includes_budget fd :
  JS.includes (FormData.budget fd) (prompt fd) = true.
Proof.
  apply includes_spec. unfold prompt.
  do 9 apply occurs_app_r. apply occurs_here.
Qed.

Lemma includes_budget_line fd :
  FormData.budget fd = js "medium" ->
  JS.includes (js "      - Expected Scale/Budget: medium" ++ [10%N]) (prompt fd)
  = true.
Proof.
  intros Hb. apply includes_spec. unfold prompt. rewrite Hb.
  do 8 apply occurs_app_r. apply includes_spec. by vm_compute.
Qed.

(** C7: for the Miami parameters the prompt contains [Miami, FL],
    [urban dense], [highway adjacent], [retail] and [medium]; and for every
    form the prompt contains the location and the budget as they are, and
    each of demographics, traffic and amenities with its first hyphen read
    as a space, a readable form of the value. *)
Theorem prompt_embeds_parameters :
  (let p := prompt Sample.miami in
   JS.includes (js "Miami, FL") p = true
   /\ JS.includes (js "urban dense") p = true
   /\ JS.includes (js "highway adjacent") p = true
   /\ JS.includes (js "retail") p = true
   /\ JS.includes (js "medium") p = true)
  /\ forall fd,
       let p := prompt fd in
       let shown v := JS.replace (js "-") (js " ") v in
       JS.includes (FormData.location fd) p = true
       /\ JS.includes (shown (FormData.demographics fd)) p = true
       /\ readable (FormData.demographics fd) (shown (FormData.demographics fd))
       /\ JS.includes (shown (FormData.traffic fd)) p = true
       /\ readable (FormData.traffic fd) (shown (FormData.traffic fd))
       /\ JS.includes (shown (FormData.amenities fd)) p = true
       /\ readable (FormData.amenities fd) (shown (FormData.amenities fd))
       /\ JS.includes (FormData.budget fd) p = true.
Proof.
  split.
  - cbv zeta. repeat split; by vm_compute.
  - intros fd p shown. subst p shown. cbv beta.
    split; [apply includes_location|].
    split; [apply includes_demographics|].
    split; [apply replace_hyphen_readable|].
    split; [apply includes_traffic|].
    split; [apply replace_hyphen_readable|].
    split; [apply includes_amenities|].
    split; [apply replace_hyphen_readable|].
    apply includes_budget.
Qed.

(** The one option with two hyphens keeps its second. *)
Example rideshare_prompt :
  JS.includes (js "- Traffic Profile: ride share-hub") (prompt Sample.rideshare)
  = true.
Proof. by vm_compute. Qed.

End PromptClaims.

(** ** The overlays *)

(** C9, as the code has it: the overlays are a function of the state; the
    loading overlay shows alone; otherwise the hover card shows when a site
    is hovered and the placeholder when there is no result, each
    independently of the other; so at most one overlay shows exactly when
    it is not the case that a site is hovered with no result and nothing
    loading. *)
Theorem overlays_by_state (st : AppState) :
  overlays st
  = match loading st, hoveredSite st, gisData st with
    | true, _, _ => [LoadingOverlay]
    | false, Some site, None => [HoverCard site; Placeholder]
    | false, Some site, Some _ => [HoverCard site]
    | false, None, None => [Placeholder]
    | false, None, Some _ => []
    end
  /\ (at_most_one_overlay st
      <-> ~ (loading st = false /\ gisData st = None /\ is_Some (hoveredSite st))).
Proof.
  unfold at_most_one_overlay, overlays.
  destruct st as [fd [] [d|] err [site|]]; simpl; (split; [done|]).
  - split; [by intros _ (? & _) | lia].
  - split; [by intros _ (? & _) | lia].
  - split; [by intros _ (? & _) | lia].
  - split; [by intros _ (? & _) | lia].
  - split; [by intros _ (_ & ? & _) | lia].
  - split; [by intros _ (_ & ? & _) | lia].
  - split; [lia | intros H; exfalso; apply H; eauto].
  - split; [by intros _ (_ & _ & ?%is_Some_None) | lia].
Qed.

(** C9, as stated, fails: with a site hovered, no result and nothing
    loading, the hover card and the placeholder both show. *)
Lemma hover_card_with_placeholder :
  overlays Sample.hovering = [HoverCard Sample.brickell; Placeholder]
  /\ ~ at_most_one_overlay Sample.hovering.
Proof.
  split; [done|]. unfold at_most_one_overlay. simpl. lia.
Qed.

(** ** The budget *)

Section BudgetClaims.

Lemma control_name_not_budget c : control_name c <> js "budget".
Proof. destruct c; intros H; vm_compute in H; discriminate H. Qed.

Lemma set_keeps_budget key value fd :
  key <> js "budget" ->
  FormData.budget (FormData.set key value fd) = FormData.budget fd.
Proof. intros Hk. unfold FormData.set. by repeat case_decide. Qed.

Lemma ui_keeps_budget st u :
  FormData.budget (formData (apply_setter (ui_setter u) st))
  = FormData.budget (formData st).
Proof.
  destruct u as [c v|s]; [|done]. simpl.
  apply set_keeps_budget, control_name_not_budget.
Qed.

Lemma harmless_keeps_budget st e :
  harmless e ->
  FormData.budget (formData (replay_entry st e)) = FormData.budget (formData st).
Proof.
  destruct e as [|[]| | |u]; try done. intros _. apply ui_keeps_budget.
Qed.

Lemma replay_keeps_budget l st :
  Forall harmless l ->
  FormData.budget (formData (replay l st)) = FormData.budget (formData st).
Proof.
  revert st. induction l as [|e l IH]; intros st H; [done|].
  apply Forall_cons in H as [He Hl].
  change (replay (e :: l) st) with (replay l (replay_entry st e)).
  rewrite IH by done. by apply harmless_keeps_budget.
Qed.

Lemma harmless_own l : Forall harmless (own l) -> Forall harmless l.
Proof.
  induction l as [|e l IH]; [done|].
  destruct (is_ui e) eqn:Hui.
  - destruct e; try done. intros H. apply Forall_cons. split; [done|]. by apply IH.
  - rewrite own_cons by done. intros [He Hl]%Forall_cons.
    apply Forall_cons. split; [done|]. by apply IH.
Qed.

Lemma policy_harmless req a1 a2 a3 : Forall harmless (retry_policy req a1 a2 a3).2.
Proof. destruct a1, a2, a3; simpl; repeat constructor. Qed.

(** A submission never calls [setFormData]. *)
Lemma handleSubmit_harmless apiKey JSON_parse server meanwhile w0 :
  Forall harmless
    (added w0 (handleSubmit apiKey JSON_parse server meanwhile w0).2).
Proof.
  destruct (decide (blank (FormData.location (formData (ui w0))))) as [B|B].
  - rewrite handleSubmit_blank by done. unfold added. simpl.
    rewrite drop_app_length. repeat constructor.
  - destruct (handleSubmit_outcome apiKey JSON_parse server meanwhile w0 B)
      as (w' & l & E & _ & O & _).
    rewrite E. simpl. apply harmless_own. rewrite O.
    apply Forall_app. split; [repeat constructor|].
    apply Forall_app. split; [apply policy_harmless|].
    destruct (retry_policy _ _ _ _).1; repeat constructor.
Qed.

(** C10: no control is named [budget], so in every reachable state the
    budget is its initial [medium], and the prompt built from the state has
    the line [- Expected Scale/Budget: medium]. *)
Theorem budget_stays_medium (st : AppState) :
  reachable st ->
  (forall c, control_name c <> js "budget")
  /\ FormData.budget (formData st) = js "medium"
  /\ JS.includes (js "      - Expected Scale/Budget: medium" ++ [10%N])
       (prompt (formData st)) = true.
Proof.
  intros R. split; [apply control_name_not_budget|].
  assert (B : FormData.budget (formData st) = js "medium").
  { induction R as [|st e R IH|st apiKey JSON_parse server meanwhile k a n R IH D].
    - done.
    - by rewrite ui_keeps_budget.
    - rewrite replay_keeps_budget; [done|].
      apply Forall_take.
      apply (handleSubmit_harmless apiKey JSON_parse server meanwhile
               (mkWorld st [] k a)). }
  split; [done | by apply includes_budget_line].
Qed.

End BudgetClaims.

(** After typing a location and one submission that fails twice. *)
Lemma budget_stays_medium_witness :
  let typed :=
    apply_setter (ui_setter (Change LocationInput (js "Miami, FL"))) initialState in
  let submitted :=
    replay
      (take 40 (log (handleSubmit Sample.apiKey Sample.JSON_parse Sample.flaky
                       Sample.busy (mkWorld typed [] 0 0)).2))
      typed in
  reachable submitted
  /\ FormData.budget (formData submitted) = js "medium".
Proof.
  cbv zeta.
  assert (R : reachable
                (replay
                   (take 40
                      (log (handleSubmit Sample.apiKey Sample.JSON_parse
                              Sample.flaky Sample.busy
                              (mkWorld
                                 (apply_setter
                                    (ui_setter (Change LocationInput (js "Miami, FL")))
                                    initialState) [] 0 0)).2))
                   (apply_setter
                      (ui_setter (Change LocationInput (js "Miami, FL")))
                      initialState))).
  { apply reachable_submit; [|done]. apply reachable_ui, reachable_initial. }
  split; [exact R|].
  exact (proj1 (proj2 (budget_stays_medium _ R))).
Defined.

(** ** The markers *)

Section MarkerClaims.

Lemma shown_sites_snoc results r :
  shown_sites (results ++ [r])
  = match r with
    | Some d => GisData.sites d
    | None => shown_sites results
    end.
Proof. unfold shown_sites. by rewrite foldl_snoc. Qed.

(** C3, as the code has it: after any sequence of results the renderer
    shows the sites of the last result that was not [null]: one marker per
    site, in order, each at the site's coordinates with the two listeners of
    the site, no marker twice, and the markers on the map are exactly these.
    A result replaces the sites shown; [null] leaves them. *)
Theorem markers_follow_last_result (results : list (option GisData.t)) :
  let w := render_all results mountedMap in
  Forall2 (pins w) (markersRef w) (shown_sites results)
  /\ NoDup (markersRef w)
  /\ markers_on_map w = list_to_set (markersRef w)
  /\ length (markersRef w) = length (shown_sites results)
  /\ size (markers_on_map w) = length (shown_sites results)
  /\ (forall d, shown_sites (results ++ [Some d]) = GisData.sites d)
  /\ shown_sites (results ++ [None]) = shown_sites results.
Proof.
  intros w.
  pose proof (render_all_shows results mountedMap [] mountedMap_shows) as H.
  fold (shown_sites results) in H. fold w in H.
  pose proof (shows_on_map _ _ H) as M.
  destruct H as (_ & F & N & _).
  pose proof (Forall2_length _ _ _ F) as L.
  split; [done|]. split; [done|]. split; [done|]. split; [done|].
  split.
  - rewrite M, size_list_to_set by done. done.
  - split; [intros d|]; by rewrite shown_sites_snoc.
Qed.

(** C3, as stated, fails: after a result with two sites and then [null],
    the current result has no site and the renderer still holds the two
    markers, on the map. *)
Lemma markers_outlive_result :
  let results := [Some Sample.result; None] in
  let w := render_all results mountedMap in
  current_sites results = []
  /\ length (markersRef w) = 2
  /\ size (markers_on_map w) = 2
  /\ ~ markers_reflect_current results.
Proof.
  cbv zeta. split; [done|]. split; [done|]. split; [by vm_compute|].
  intros H%Forall2_length. by vm_compute in H.
Qed.

(** C8: after the effect ran for a result, each site has its marker, on
    the map; [mouseover] on it sets the hovered site to that site and
    [mouseout] sets it to [null], and neither touches the rest of the
    state. *)
Theorem marker_hover (w : MapWorld) (d : GisData.t) (i : nat) (site : Site.t)
    (st : AppState) :
  mapContainerRef w = true ->
  GisData.sites d !! i = Some site ->
  let w' := effect (Some d) w in
  length (markersRef w') = length (GisData.sites d)
  /\ exists id,
       markersRef w' !! i = Some id
       /\ id ∈ markers_on_map w'
       /\ fire w' id Leaflet.mouseover st
          = mkAppState (formData st) (loading st) (gisData st) (error st) (Some site)
       /\ fire w' id Leaflet.mouseout st
          = mkAppState (formData st) (loading st) (gisData st) (error st) None.
Proof.
  intros C Hi w'. subst w'. rewrite effect_Some by done.
  set (w3 := clearMarkers _).
  assert (R3 : markersRef w3 = []) by (unfold w3; by rewrite clearMarkers_eq).
  assert (I3 : is_Some (mapInstance w3)).
  { unfold w3. rewrite clearMarkers_eq. simpl.
    by destruct (initMap_is_Some (loadLeaflet w)) as [map ->]. }
  clearbody w3. destruct I3 as [map E3].
  destruct (addMarkers_frame (GisData.sites d) w3) as (_ & _ & R4 & I4).
  rewrite R3, app_nil_l in R4. rewrite E3 in I4. simpl in I4.
  pose proof (addMarkers_new _ w3 _ _ Hi) as P.
  split; [by rewrite R4, length_seq|].
  exists (S (lastId w3) + i). split; [|split; [|split]].
  - rewrite R4. apply lookup_seq_lt. by eapply lookup_lt_Some.
  - unfold markers_on_map. rewrite I4. apply elem_of_filter.
    split; [by eapply pins_is_marker|]. simpl.
    apply elem_of_union_r, elem_of_list_to_set, elem_of_seq.
    apply lookup_lt_Some in Hi. lia.
  - unfold fire, listeners_for. by rewrite P.
  - unfold fire, listeners_for. by rewrite P.
Qed.

End MarkerClaims.

Lemma marker_hover_witness :
  mapContainerRef mountedMap = true
  /\ GisData.sites Sample.result !! 1 = Some Sample.wynwood
  /\ exists id,
       markersRef (effect (Some Sample.result) mountedMap) !! 1 = Some id
       /\ hoveredSite
            (fire (effect (Some Sample.result) mountedMap) id Leaflet.mouseover
               initialState) = Some Sample.wynwood
       /\ hoveredSite
            (fire (effect (Some Sample.result) mountedMap) id Leaflet.mouseout
               Sample.hovering) = None.
Proof.
  split; [reflexivity|]. split; [reflexivity|].
  destruct (marker_hover mountedMap Sample.result 1 Sample.wynwood initialState
              eq_refl eq_refl) as (_ & id & R & _ & Over & _).
  destruct (marker_hover mountedMap Sample.result 1 Sample.wynwood Sample.hovering
              eq_refl eq_refl) as (_ & id' & R' & _ & _ & Out).
  assert (id' = id) by congruence. subst id'.
  exists id. split; [exact R|]. split; [by rewrite Over | by rewrite Out].
Defined.

(** * More properties of the code *)

(** ** The form *)

(** X1: a change event of a control puts the value typed in that control,
    and leaves the other controls, the budget and the four other state
    cells as they were. *)
Theorem change_sets_its_control (c : Control) (value : jsstring) (st : AppState) :
  let st' := apply_setter (handleInputChange (mkChange (control_name c) value)) st in
  control_value c st' = value
  /\ (forall c', c' <> c -> control_value c' st' = control_value c' st)
  /\ FormData.budget (formData st') = FormData.budget (formData st)
  /\ loading st' = loading st
  /\ gisData st' = gisData st
  /\ error st' = error st
  /\ hoveredSite st' = hoveredSite st.
Proof.
  destruct st as [[l d t a b] ld g e h].
  split; [by destruct c|].
  split; [by intros c' Hc; destruct c, c'|].
  split; [by destruct c | done].
Qed.

(** ** [replace] in the prompt *)

Section ReplaceFacts.

Implicit Types v : list N.



End ReplaceFacts.

(** ** More of a submission *)

Lemma Forall_own (P : Entry -> Prop) l :
  (forall u, P (Ui u)) -> Forall P (own l) -> Forall P l.
Proof.
  intros HP. induction l as [|e l IH]; [done|].
  destruct (is_ui e) eqn:Hui.
  - destruct e; try done. intros H. apply Forall_cons. split; [apply HP | by apply IH].
  - rewrite own_cons by done. intros [He Hl]%Forall_cons.
    apply Forall_cons. split; [done | by apply IH].
Qed.

Lemma filter_own (p : Entry -> bool) l :
  (forall u, p (Ui u) = false) ->
  filter (fun e => p e = true) (own l) = filter (fun e => p e = true) l.
Proof.
  intros Hp. induction l as [|e l IH]; [done|].
  destruct (is_ui e) eqn:Hui.
  - destruct e; try done. rewrite (filter_cons_False _ (Ui _)) by (by rewrite Hp).
    exact IH.
  - rewrite own_cons by done.
    destruct (p e) eqn:He.
    + rewrite !filter_cons_True by done. by rewrite IH.
    + rewrite !filter_cons_False by (by rewrite He). exact IH.
Qed.

Lemma total_wait_own l : total_wait (own l) = total_wait l.
Proof.
  induction l as [|e l IH]; [done|].
  destruct (is_ui e) eqn:Hui.
  - by destruct e.
  - rewrite own_cons by done. simpl. by rewrite IH.
Qed.

Lemma gisData_updates_cons e l :
  gisData_updates (e :: l)
  = match e with
    | Set_ (setGisData d) => d :: gisData_updates l
    | _ => gisData_updates l
    end.
Proof. by destruct e as [|[]| | |]. Qed.

Lemma gisData_updates_own l : gisData_updates (own l) = gisData_updates l.
Proof.
  induction l as [|e l IH]; [done|].
  destruct (is_ui e) eqn:Hui.
  - by destruct e.
  - rewrite own_cons, !gisData_updates_cons by done. by rewrite IH.
Qed.


Lemma formData_replay l st :
  Forall harmless l -> formData (replay l st) = form_after l (formData st).
Proof.
  revert st. induction l as [|e l IH]; intros st H; [done|].
  apply Forall_cons in H as [He Hl].
  change (replay (e :: l) st) with (replay l (replay_entry st e)).
  rewrite IH by done. destruct e as [|[]| | |[]]; done.
Qed.


Section Submission.

Variable apiKey : jsstring.
Variable JSON_parse : jsstring -> option GisData.t.
Variable server : nat -> Reply.
Variable meanwhile : nat -> list UiEvent.

(** Every run of [handleSubmit]: it returns, its log replays to its final
    state, and its own entries are those of one of the two paths. *)
Lemma handleSubmit_run w0 :
  let fd := formData (ui w0) in
  let policy :=
    retry_policy (request apiKey (prompt fd))
      (settle JSON_parse (server (fetches w0)))
      (settle JSON_parse (server (S (fetches w0))))
      (settle JSON_parse (server (S (S (fetches w0))))) in
  exists w',
    handleSubmit apiKey JSON_parse server meanwhile w0 = (Normal (), w')
    /\ ui w' = replay (added w0 w') (ui w0)
    /\ own (added w0 w')
       = if decide (blank (FormData.location fd))
         then [PreventDefault;
               Set_ (setError
                       (Some (js "Please enter a target location (City, State, or Region).")))]
         else opening ++ policy.2
              ++ [conclusion policy.1; Set_ (setLoading false)].
Proof.
  intros fd policy. destruct (decide (blank (FormData.location fd))) as [B|B].
  - rewrite handleSubmit_blank by done. eexists. split; [done|].
    unfold added. simpl. by rewrite drop_app_length.
  - destruct (handleSubmit_valid apiKey JSON_parse server meanwhile w0 B)
      as (w' & l & E & X & O).
    fold fd in X, O. fold policy in X, O.
    exists w'. split; [done|]. rewrite (extends_added _ _ _ X).
    split; [apply X|].
    by rewrite !own_app, O, own_conclusion.
Qed.


(** X3: after a submission the error box shows the validation message when
    the location was blank, the connection message when the three attempts
    failed, and nothing when one succeeded: the messages of the errors the
    attempts threw never reach the page. *)
Theorem error_box_after_submission (w0 : World) :
  let fd := formData (ui w0) in
  let run := handleSubmit apiKey JSON_parse server meanwhile w0 in
  let policy :=
    retry_policy (request apiKey (prompt fd))
      (settle JSON_parse (server (fetches w0)))
      (settle JSON_parse (server (S (fetches w0))))
      (settle JSON_parse (server (S (S (fetches w0))))) in
  error_box (ui run.2)
  = if decide (blank (FormData.location fd))
    then Some (js "Please enter a target location (City, State, or Region).")
    else match policy.1 with
         | Normal _ => None
         | Throw _ => Some (js "Failed to connect to AI. Please try again.")
         end.
Proof.
  intros fd run policy. subst run.
  destruct (decide (blank (FormData.location fd))) as [B|B].
  - by rewrite handleSubmit_blank.
  - destruct (handleSubmit_outcome apiKey JSON_parse server meanwhile w0 B)
      as (w' & l & E & _ & _ & C & _).
    rewrite E. simpl snd. fold fd in C. fold policy in C.
    assert (Herr : error (ui w')
                   = error (replay [conclusion policy.1; Set_ (setLoading false)]
                              (replay opening (ui w0)))).
    { revert C. unfold controlled. by intros [= _ _ ->]. }
    unfold error_box. rewrite Herr. unfold policy.
    by destruct (settle JSON_parse (server (fetches w0))),
         (settle JSON_parse (server (S (fetches w0)))),
         (settle JSON_parse (server (S (S (fetches w0))))).
Qed.

(** X4: all the requests of a submission are the same request, built from
    the form as it was when the submission started: what the user types
    while it is out changes no retry. *)
Theorem requests_of_a_submission (w0 : World) :
  let l := added w0 (handleSubmit apiKey JSON_parse server meanwhile w0).2 in
  filter (fun e => is_fetch e = true) l
  = replicate (attempts l) (Fetch (request apiKey (prompt (formData (ui w0))))).
Proof.
  intros l. subst l.
  destruct (handleSubmit_run w0) as (w' & E & _ & O). rewrite E. simpl snd.
  unfold attempts. rewrite <- (filter_own is_fetch) by done. rewrite O.
  destruct (decide (blank _)); [done|].
  by destruct (settle JSON_parse (server (fetches w0))),
       (settle JSON_parse (server (S (fetches w0)))),
       (settle JSON_parse (server (S (S (fetches w0))))).
Qed.

(** X5: a submission never writes the form: the form it leaves is the one
    it started with, changed by the change events the page handled
    meanwhile, in order. *)
Theorem submission_keeps_form (w0 : World) :
  let run := handleSubmit apiKey JSON_parse server meanwhile w0 in
  formData (ui run.2) = form_after (added w0 run.2) (formData (ui w0)).
Proof.
  intros run. subst run.
  pose proof (handleSubmit_harmless apiKey JSON_parse server meanwhile w0) as H.
  destruct (handleSubmit_run w0) as (w' & E & U & _).
  rewrite E in H |- *. simpl snd in *. rewrite U. by apply formData_replay.
Qed.

(** X6: [handleSubmit] never throws, whatever the service does, and never
    leaves the loading flag set: after a blank location the flag is as it
    was, otherwise it is cleared. *)
Theorem submission_always_concludes (w0 : World) :
  let run := handleSubmit apiKey JSON_parse server meanwhile w0 in
  run.1 = Normal ()
  /\ loading (ui run.2)
     = if decide (blank (FormData.location (formData (ui w0))))
       then loading (ui w0) else false.
Proof.
  intros run. subst run.
  destruct (decide (blank _)) as [B|B].
  - by rewrite handleSubmit_blank.
  - destruct (handleSubmit_outcome apiKey JSON_parse server meanwhile w0 B)
      as (w' & l & E & _ & _ & C & _).
    rewrite E. split; [done|]. simpl snd.
    revert C. unfold controlled. by intros [= -> _ _].
Qed.

(** X8: a request is sent exactly when the location has a character that
    is not white space, and never more than three. *)
Theorem request_iff_location (w0 : World) :
  let l := added w0 (handleSubmit apiKey JSON_parse server meanwhile w0).2 in
  (attempts l = 0 <-> blank (FormData.location (formData (ui w0))))
  /\ attempts l <= 3.
Proof.
  intros l. subst l.
  destruct (handleSubmit_run w0) as (w' & E & _ & O). rewrite E. simpl snd.
  rewrite <- attempts_own, O.
  destruct (decide (blank _)) as [B|B].
  { split; [by split | unfold attempts; simpl; lia]. }
  rewrite !attempts_app.
  pose proof (policy_attempts (request apiKey (prompt (formData (ui w0))))
                (settle JSON_parse (server (fetches w0)))
                (settle JSON_parse (server (S (fetches w0))))
                (settle JSON_parse (server (S (S (fetches w0)))))) as H3.
  assert (H1 : 1 <= attempts
                      (retry_policy (request apiKey (prompt (formData (ui w0))))
                         (settle JSON_parse (server (fetches w0)))
                         (settle JSON_parse (server (S (fetches w0))))
                         (settle JSON_parse (server (S (S (fetches w0)))))).2).
  { destruct (settle _ _), (settle _ _), (settle _ _); unfold attempts; simpl; lia. }
  assert (H0 : attempts opening = 0) by done.
  assert (Hc : forall c, attempts [conclusion c; Set_ (setLoading false)] = 0)
    by (by intros []).
  rewrite H0, Hc. split; [|lia]. split; [lia | done].
Qed.

(** X9: [callGeminiWithRetry] always sends a request; it waits 500ms in
    all when it sends two and 1500ms when it sends three; and it ends on a
    request, never on a wait. *)
Theorem waits_of_the_client (prompt : jsstring) (w : World) :
  let l := added w (callGeminiWithRetry apiKey JSON_parse server meanwhile prompt w).2 in
  1 <= attempts l
  /\ total_wait l
     = match attempts l with
       | 0 | 1 => 0%N
       | 2 => 500%N
       | _ => 1500%N
       end
  /\ last (own l) = Some (Fetch (request apiKey prompt)).
Proof.
  intros l. subst l.
  destruct (callGeminiWithRetry_spec apiKey JSON_parse server meanwhile prompt w)
    as (w' & l & E & X & O).
  rewrite E. simpl snd. rewrite (extends_added _ _ _ X).
  rewrite <- attempts_own, <- total_wait_own, O.
  destruct (settle JSON_parse (server (fetches w))),
    (settle JSON_parse (server (S (fetches w)))),
    (settle JSON_parse (server (S (S (fetches w)))));
    unfold attempts; simpl; (split; [lia | done]).
Qed.

End Submission.


(** ** More of the renderer *)

Section Renderer.

Implicit Types (w : MapWorld) (r : option GisData.t)
  (results : list (option GisData.t)).

Lemma addMarkers_assets sites w :
  windowL (foldl addMarker w sites) = windowL w
  /\ head (foldl addMarker w sites) = head w.
Proof.
  revert w. induction sites as [|s sites IH]; intros w; [done|].
  change (foldl addMarker w (s :: sites))
    with (foldl addMarker (addMarker w s) sites).
  destruct (IH (addMarker w s)) as [-> ->]. by rewrite addMarker_eq.
Qed.

Lemma initMap_assets w :
  windowL (initMap w) = windowL w /\ head (initMap w) = head w.
Proof. unfold initMap. by destruct (mapInstance w). Qed.

Lemma effect_mounted r w : mapContainerRef (effect r w) = mapContainerRef w.
Proof.
  assert (C : mapContainerRef (loadLeaflet w) = mapContainerRef w).
  { unfold loadLeaflet. by destruct (windowL w). }
  destruct (mapContainerRef w) eqn:M.
  - destruct r as [d|].
    + rewrite effect_Some by done.
      destruct (addMarkers_frame (GisData.sites d)
                  (clearMarkers
                     (onMap (Leaflet.setView
                               (CityCenter.lat (GisData.cityCenter d),
                                CityCenter.lng (GisData.cityCenter d)) 13)
                        (initMap (loadLeaflet w))))) as (_ & -> & _).
      rewrite clearMarkers_eq. simpl. by rewrite initMap_container, C.
    + rewrite effect_None by done. by rewrite initMap_container, C.
  - unfold effect. rewrite C. exact C.
Qed.

Lemma effect_assets r w :
  windowL (effect r w) = true
  /\ head (effect r w) = if windowL w then head w else head w ++ leaflet_assets.
Proof.
  assert (L : windowL (loadLeaflet w) = true
              /\ head (loadLeaflet w)
                 = if windowL w then head w else head w ++ leaflet_assets).
  { unfold loadLeaflet. by destruct (windowL w) eqn:E. }
  unfold effect. destruct (mapContainerRef (loadLeaflet w)); simpl; [|done].
  destruct (initMap_assets (loadLeaflet w)) as [W H].
  destruct r as [d|]; [|by rewrite W, H].
  destruct (mapInstance (initMap (loadLeaflet w))); [|by rewrite W, H].
  destruct (addMarkers_assets (GisData.sites d)
              (clearMarkers
                 (onMap (Leaflet.setView
                           (CityCenter.lat (GisData.cityCenter d),
                            CityCenter.lng (GisData.cityCenter d)) 13)
                    (initMap (loadLeaflet w))))) as [-> ->].
  rewrite clearMarkers_eq. simpl. by rewrite W, H.
Qed.

(** X10: Leaflet's stylesheet and script are appended to the document head
    at most once: by the first effect that runs while [window.L] is not
    there, and by no later one. *)
Theorem leaflet_loaded_once results w :
  head (render_all results w)
  = if windowL w || bool_decide (results = [])
    then head w
    else head w ++ leaflet_assets.
Proof.
  revert w. induction results as [|r results IH]; intros w.
  - by rewrite orb_true_r.
  - change (render_all (r :: results) w) with (render_all results (effect r w)).
    rewrite IH. destruct (effect_assets r w) as [-> ->]. simpl.
    by destruct (windowL w).
Qed.

(** X11: while the [<div>] is not mounted the effect makes no map, no
    object and no marker, whatever the results. *)
Theorem unmounted_effect_is_idle results w :
  mapContainerRef w = false ->
  let w' := render_all results w in
  mapInstance w' = mapInstance w
  /\ markersRef w' = markersRef w
  /\ objects w' = objects w
  /\ lastId w' = lastId w
  /\ markers_on_map w' = markers_on_map w.
Proof.
  revert w. induction results as [|r results IH]; intros w M; cbv zeta; [done|].
  change (render_all (r :: results) w) with (render_all results (effect r w)).
  assert (E : effect r w = loadLeaflet w).
  { unfold effect.
    assert (C : mapContainerRef (loadLeaflet w) = false)
      by (unfold loadLeaflet; by destruct (windowL w)).
    by rewrite C. }
  assert (M' : mapContainerRef (effect r w) = false) by by rewrite effect_mounted.
  destruct (IH _ M') as (-> & -> & -> & -> & ->).
  rewrite E. unfold loadLeaflet. by destruct (windowL w).
Qed.

Lemma ready_prepared w : map_ready w -> initMap (loadLeaflet w) = w.
Proof.
  intros (_ & W & _ & _ & _ & map & E & _).
  unfold loadLeaflet. rewrite W. unfold initMap. by rewrite E.
Qed.

Lemma mounted_prepared_ready : map_ready (initMap (loadLeaflet mountedMap)).
Proof.
  split; [done|]. split; [done|]. split; [done|]. split; [done|].
  split; [constructor|]. eexists. split; [done|]. simpl. set_solver.
Qed.

(** The update for a result keeps the renderer ready. *)
Lemma update_ready d w :
  map_ready w ->
  map_ready
    (foldl addMarker
       (clearMarkers
          (onMap (Leaflet.setView
                    (CityCenter.lat (GisData.cityCenter d),
                     CityCenter.lng (GisData.cityCenter d)) 13) w))
       (GisData.sites d)).
Proof.
  intros (C & W & T & L & F & map & E & Hl).
  set (w3 := clearMarkers _).
  assert (E3 : mapInstance w3 =
               Some (Leaflet.mkMap
                       (CityCenter.lat (GisData.cityCenter d),
                        CityCenter.lng (GisData.cityCenter d)) 13
                       (Leaflet.layers map ∖ list_to_set (markersRef w)))).
  { unfold w3. rewrite clearMarkers_eq. simpl. by rewrite E. }
  assert (L3 : lastId w3 = lastId w) by (unfold w3; by rewrite clearMarkers_eq).
  assert (O3 : objects w3 = objects w) by (unfold w3; by rewrite clearMarkers_eq).
  assert (R3 : markersRef w3 = []) by (unfold w3; by rewrite clearMarkers_eq).
  assert (C3 : mapContainerRef w3 = true) by (unfold w3; by rewrite clearMarkers_eq).
  assert (W3 : windowL w3 = true) by (unfold w3; by rewrite clearMarkers_eq).
  clearbody w3.
  destruct (addMarkers_frame (GisData.sites d) w3) as (L4 & C4 & R4 & I4).
  destruct (addMarkers_assets (GisData.sites d) w3) as [W4 _].
  rewrite R3 in R4. rewrite E3 in I4. simpl in R4, I4.
  split; [congruence|]. split; [congruence|].
  split; [by rewrite addMarkers_old, O3 by lia|].
  split; [lia|]. split.
  - rewrite R4. apply Forall_forall. intros id [H1 H2]%elem_of_seq. lia.
  - eexists. split; [exact I4|]. simpl. rewrite R4, Hl.
    assert (Hnot : 1 ∉ markersRef w).
    { intros Hin. rewrite Forall_forall in F. specialize (F _ Hin). lia. }
    set_solver.
Qed.

Lemma effect_ready r w : map_ready w -> map_ready (effect r w).
Proof.
  intros H. pose proof H as (C & _).
  destruct r as [d|].
  - rewrite effect_Some, ready_prepared by done. by apply update_ready.
  - by rewrite effect_None, ready_prepared.
Qed.

Lemma first_effect_ready r : map_ready (effect r mountedMap).
Proof.
  destruct r as [d|].
  - rewrite effect_Some by done. apply update_ready, mounted_prepared_ready.
  - rewrite effect_None by done. apply mounted_prepared_ready.
Qed.

Lemma render_all_ready results w : map_ready w -> map_ready (render_all results w).
Proof.
  revert w. induction results as [|r results IH]; intros w H; [done|].
  apply IH. by apply effect_ready.
Qed.

(** X12: the map is made once: there is one object, the tile layer made
    with the map, that from the first effect on is on the map whatever the
    results; it is no marker, and every other layer of the map is a marker
    of [markersRef.current]. *)
Theorem map_is_made_once :
  exists tile,
    forall r results,
      let w := render_all (r :: results) mountedMap in
      objects w !! tile = Some tile_layer
      /\ (tile ∉ markersRef w)
      /\ exists map,
           mapInstance w = Some map
           /\ Leaflet.layers map = {[tile]} ∪ list_to_set (markersRef w)
           /\ Leaflet.layers map ∖ markers_on_map w = {[tile]}.
Proof.
  exists 1. intros r results w.
  assert (H : map_ready w).
  { unfold w.
    change (render_all (r :: results) mountedMap)
      with (render_all results (effect r mountedMap)).
    apply render_all_ready, first_effect_ready. }
  pose proof (render_all_shows (r :: results) mountedMap [] mountedMap_shows) as S.
  fold w in S. apply shows_on_map in S.
  destruct H as (_ & _ & T & _ & F & map & E & Hl).
  assert (Hnot : 1 ∉ markersRef w).
  { intros Hin. rewrite Forall_forall in F. specialize (F _ Hin). lia. }
  split; [done|]. split; [done|].
  exists map. split; [done|]. split; [done|].
  rewrite S, Hl. set_solver.
Qed.

End Renderer.

Lemma unmounted_effect_is_idle_witness :
  mapContainerRef unmountedMap = false
  /\ mapInstance (render_all [Some Sample.result; None] unmountedMap) = None
  /\ markersRef (render_all [Some Sample.result; None] unmountedMap) = [].
Proof.
  split; [reflexivity|].
  destruct (unmounted_effect_is_idle [Some Sample.result; None] unmountedMap eq_refl)
    as (I & R & _).
  split; [exact I | exact R].
Defined.

Section RendererAndPage.

Implicit Types (w : MapWorld) (r : option GisData.t)
  (results : list (option GisData.t)).

Lemma prepared_view w : view (initMap (loadLeaflet w)) = view w.
Proof.
  by destruct w as [[] hd li ob mc [map|] mr].
Qed.

Lemma update_view d w :
  is_Some (mapInstance w) ->
  view (foldl addMarker
          (clearMarkers
             (onMap (Leaflet.setView
                       (CityCenter.lat (GisData.cityCenter d),
                        CityCenter.lng (GisData.cityCenter d)) 13) w))
          (GisData.sites d))
  = ((CityCenter.lat (GisData.cityCenter d),
      CityCenter.lng (GisData.cityCenter d)), 13%N).
Proof.
  intros [map E]. unfold view.
  destruct (addMarkers_frame (GisData.sites d)
              (clearMarkers
                 (onMap (Leaflet.setView
                           (CityCenter.lat (GisData.cityCenter d),
                            CityCenter.lng (GisData.cityCenter d)) 13) w)))
    as (_ & _ & _ & ->).
  rewrite clearMarkers_eq. simpl. by rewrite E.
Qed.

Lemma effect_view r w :
  mapContainerRef w = true ->
  view (effect r w)
  = match r with
    | Some d =>
        ((CityCenter.lat (GisData.cityCenter d),
          CityCenter.lng (GisData.cityCenter d)), 13%N)
    | None => view w
    end.
Proof.
  intros C. destruct r as [d|].
  - rewrite effect_Some by done. apply update_view, initMap_is_Some.
  - rewrite effect_None by done. apply prepared_view.
Qed.

(** X13: the view of the map follows the results: the centre of the last
    result that was not [null], at zoom 13; before the first such result,
    the view the map was made with. *)
Theorem view_follows_results results :
  view (render_all results mountedMap) = view_of results.
Proof.
  unfold view_of. change ((39.8283, -98.5795)%float, 4%N) with (view mountedMap).
  assert (C : mapContainerRef mountedMap = true) by done.
  revert C. generalize mountedMap.
  induction results as [|r results IH]; intros w C; [done|].
  change (render_all (r :: results) w) with (render_all results (effect r w)).
  rewrite IH by (by rewrite effect_mounted). simpl. by rewrite effect_view.
Qed.

Lemma effect_is_Some r w :
  mapContainerRef w = true -> is_Some (mapInstance (effect r w)).
Proof.
  intros C. destruct r as [d|].
  - rewrite effect_Some by done.
    destruct (addMarkers_frame (GisData.sites d)
                (clearMarkers
                   (onMap (Leaflet.setView
                             (CityCenter.lat (GisData.cityCenter d),
                              CityCenter.lng (GisData.cityCenter d)) 13)
                      (initMap (loadLeaflet w)))))
      as (_ & _ & _ & ->).
    rewrite clearMarkers_eq. simpl.
    by destruct (initMap_is_Some (loadLeaflet w)) as [map ->].
  - rewrite effect_None by done. apply initMap_is_Some.
Qed.

(** X14: once an effect has run, an effect for [null] changes nothing at
    all: no marker is placed or removed, and the map and its view stay. *)
Theorem null_effect_is_idle r w :
  mapContainerRef w = true ->
  effect None (effect r w) = effect r w.
Proof.
  intros C.
  rewrite effect_None by (by rewrite effect_mounted).
  destruct (effect_assets r w) as [W _].
  destruct (effect_is_Some r w C) as [map E].
  unfold loadLeaflet. rewrite W. unfold initMap. by rewrite E.
Qed.

Lemma addMarkers_above sites w id :
  lastId w + length sites < id ->
  objects (foldl addMarker w sites) !! id = objects w !! id.
Proof.
  revert w. induction sites as [|s sites IH]; intros w Hid; [done|].
  change (foldl addMarker w (s :: sites))
    with (foldl addMarker (addMarker w s) sites).
  simpl in Hid.
  rewrite IH by (rewrite addMarker_lastId; lia).
  rewrite addMarker_objects. apply lookup_insert_ne. lia.
Qed.

Lemma effect_above r w id :
  (forall id', lastId w < id' -> objects w !! id' = None) ->
  lastId (effect r w) < id -> objects (effect r w) !! id = None.
Proof.
  intros Hw. unfold effect.
  assert (L : lastId (loadLeaflet w) = lastId w
              /\ objects (loadLeaflet w) = objects w
              /\ mapInstance (loadLeaflet w) = mapInstance w).
  { unfold loadLeaflet. by destruct (windowL w). }
  destruct L as (L1 & L2 & L3).
  destruct (mapContainerRef (loadLeaflet w)); simpl;
    [|rewrite L1, L2; apply Hw].
  assert (I : forall id', lastId (initMap (loadLeaflet w)) < id' ->
                objects (initMap (loadLeaflet w)) !! id' = None).
  { unfold initMap. rewrite L3. destruct (mapInstance w); simpl.
    - rewrite L1, L2. apply Hw.
    - intros id' Hid'. rewrite lookup_insert_ne by lia.
      rewrite L1 in Hid'. rewrite L2. apply Hw. lia. }
  destruct r as [d|]; [|apply I].
  destruct (mapInstance (initMap (loadLeaflet w))); [|apply I].
  set (w3 := clearMarkers _).
  assert (L3' : lastId w3 = lastId (initMap (loadLeaflet w)))
    by (unfold w3; by rewrite clearMarkers_eq).
  assert (O3 : objects w3 = objects (initMap (loadLeaflet w)))
    by (unfold w3; by rewrite clearMarkers_eq).
  clearbody w3.
  destruct (addMarkers_frame (GisData.sites d) w3) as (L4 & _).
  intros Hid. rewrite addMarkers_above by lia. rewrite O3. apply I. lia.
Qed.

Lemma objects_below_counter results id :
  lastId (render_all results mountedMap) < id ->
  objects (render_all results mountedMap) !! id = None.
Proof.
  assert (H0 : forall id', lastId mountedMap < id' ->
                 objects mountedMap !! id' = None) by done.
  revert H0 id. generalize mountedMap.
  induction results as [|r results IH]; intros w Hw id; [apply Hw|].
  change (render_all (r :: results) w) with (render_all results (effect r w)).
  apply IH. intros id'. by apply effect_above.
Qed.

(** X15: a result detaches the markers of the one before: they are
    neither in [markersRef.current] nor on the map any more, their objects
    stay as they were, and every new marker has an id that no object had. *)
Theorem stale_markers_are_detached r results (d : GisData.t) :
  let w := render_all (r :: results) mountedMap in
  let w' := effect (Some d) w in
  Forall (fun id => objects w !! id = None) (markersRef w')
  /\ forall id,
       id ∈ markersRef w ->
       (id ∉ markersRef w')
       /\ (id ∉ markers_on_map w')
       /\ objects w' !! id = objects w !! id.
Proof.
  intros w w'.
  assert (H : map_ready w).
  { unfold w.
    change (render_all (r :: results) mountedMap)
      with (render_all results (effect r mountedMap)).
    apply render_all_ready, first_effect_ready. }
  pose proof (render_all_shows (r :: results) mountedMap [] mountedMap_shows) as S.
  fold w in S. apply (effect_shows (Some d)) in S. fold w' in S.
  apply shows_on_map in S.
  pose proof H as (C & _ & _ & _ & F & _).
  assert (E : w' = foldl addMarker
                     (clearMarkers
                        (onMap (Leaflet.setView
                                  (CityCenter.lat (GisData.cityCenter d),
                                   CityCenter.lng (GisData.cityCenter d)) 13) w))
                     (GisData.sites d)).
  { unfold w'. by rewrite effect_Some, ready_prepared. }
  set (w3 := clearMarkers _) in E.
  assert (L3 : lastId w3 = lastId w) by (unfold w3; by rewrite clearMarkers_eq).
  assert (O3 : objects w3 = objects w) by (unfold w3; by rewrite clearMarkers_eq).
  assert (R3 : markersRef w3 = []) by (unfold w3; by rewrite clearMarkers_eq).
  clearbody w3.
  destruct (addMarkers_frame (GisData.sites d) w3) as (_ & _ & R4 & _).
  rewrite <- E in R4. rewrite R3, L3 in R4. simpl in R4.
  split.
  - rewrite R4. apply Forall_forall. intros id [Hid _]%elem_of_seq.
    by apply (objects_below_counter (r :: results)).
  - intros id Hin. rewrite Forall_forall in F. specialize (F _ Hin).
    assert (Hnew : id ∉ markersRef w').
    { rewrite R4. intros [? ?]%elem_of_seq. lia. }
    split; [done|]. split.
    + rewrite S. by rewrite elem_of_list_to_set.
    + rewrite E, addMarkers_old by lia. by rewrite O3.
Qed.

(** X16: after any sequence of results, [mouseover] on any marker on the
    map sets the hovered site to a site of the last result that was not
    [null], and [mouseout] sets it to [null]: no marker on the map speaks
    for a site of an older result. *)
Theorem markers_on_map_hover_shown_sites results (id : nat) (st : AppState) :
  let w := render_all results mountedMap in
  id ∈ markers_on_map w ->
  exists site,
    site ∈ shown_sites results
    /\ fire w id Leaflet.mouseover st
       = mkAppState (formData st) (loading st) (gisData st) (error st) (Some site)
    /\ fire w id Leaflet.mouseout st
       = mkAppState (formData st) (loading st) (gisData st) (error st) None.
Proof.
  intros w Hin.
  pose proof (render_all_shows results mountedMap [] mountedMap_shows) as S.
  fold (shown_sites results) in S. fold w in S.
  rewrite (shows_on_map _ _ S), elem_of_list_to_set in Hin.
  destruct S as (_ & F & _).
  apply list_elem_of_lookup in Hin as [i Hi].
  destruct (Forall2_lookup_l _ _ _ _ _ F Hi) as (site & Hs & P).
  exists site. split; [by eapply list_elem_of_lookup_2|].
  unfold fire, listeners_for. by rewrite P.
Qed.

End RendererAndPage.

Lemma null_effect_is_idle_witness :
  mapContainerRef mountedMap = true
  /\ effect None (effect (Some Sample.result) mountedMap)
     = effect (Some Sample.result) mountedMap.
Proof.
  split; [reflexivity|].
  exact (null_effect_is_idle (Some Sample.result) mountedMap eq_refl).
Defined.

Lemma markers_on_map_hover_shown_sites_witness :
  3 ∈ markers_on_map (render_all [Some Sample.result; None] mountedMap)
  /\ exists site,
       site ∈ shown_sites [Some Sample.result; None]
       /\ hoveredSite
            (fire (render_all [Some Sample.result; None] mountedMap) 3
               Leaflet.mouseover initialState) = Some site.
Proof.
  assert (H : 3 ∈ markers_on_map (render_all [Some Sample.result; None] mountedMap)).
  { apply (bool_decide_unpack _). by vm_compute. }
  split; [exact H|].
  destruct (markers_on_map_hover_shown_sites [Some Sample.result; None] 3
              initialState H) as (site & Hs & Over & _).
  exists site. split; [exact Hs | by rewrite Over].
Defined.

(** ** The submission and the renderer together *)

Lemma render_all_app (l1 l2 : list (option GisData.t)) w :
  render_all (l1 ++ l2) w = render_all l2 (render_all l1 w).
Proof. apply foldl_app. Qed.

(** X17: the renderer after a submission whose three attempts throw.
    The submission gives [gisData] the one value [null]; running the effect
    for it, the markers are still those of the result shown before, in
    [markersRef.current] and on the map, although [gisData] is then
    [null]. *)
Theorem renderer_after_failed_submission apiKey JSON_parse server meanwhile
    (results : list (option GisData.t)) (w0 : World) (e1 e2 e3 : JS.error) :
  ~ blank (FormData.location (formData (ui w0))) ->
  settle JSON_parse (server (fetches w0)) = Throw e1 ->
  settle JSON_parse (server (S (fetches w0))) = Throw e2 ->
  settle JSON_parse (server (S (S (fetches w0)))) = Throw e3 ->
  let run := handleSubmit apiKey JSON_parse server meanwhile w0 in
  let before := render_all results mountedMap in
  let after := render_all (gisData_updates (added w0 run.2)) before in
  gisData_updates (added w0 run.2) = [None]
  /\ gisData (ui run.2) = None
  /\ markersRef after = markersRef before
  /\ markers_on_map after = markers_on_map before
  /\ Forall2 (pins after) (markersRef after) (shown_sites results)
  /\ length (markersRef after) = length (shown_sites results).
Proof.
  intros B A1 A2 A3 run before after.
  destruct (handleSubmit_outcome apiKey JSON_parse server meanwhile w0 B)
    as (w' & l & E & _ & O & C & _).
  rewrite A1, A2, A3 in O, C. simpl in O, C.
  assert (U : gisData_updates (added w0 run.2) = [None]).
  { unfold run. rewrite E. simpl snd. by rewrite <- gisData_updates_own, O. }
  split; [exact U|].
  split.
  { unfold run. rewrite E. simpl snd.
    revert C. unfold controlled. simpl. by intros [= _ -> _]. }
  pose proof (render_all_shows results mountedMap [] mountedMap_shows) as S.
  fold (shown_sites results) in S. fold before in S.
  pose proof (render_all_shows (gisData_updates (added w0 run.2)) _ _ S) as S'.
  fold after in S'. rewrite U in S'. simpl in S'.
  assert (R : markersRef after = markersRef before).
  { unfold after. rewrite U.
    change (render_all [None] before) with (effect None before).
    destruct S as (M & _). rewrite effect_None by done.
    unfold initMap, loadLeaflet.
    destruct (windowL before); simpl; by destruct (mapInstance before). }
  split; [exact R|].
  split; [by rewrite (shows_on_map _ _ S'), (shows_on_map _ _ S), R|].
  destruct S' as (_ & F & _).
  split; [done | by eapply Forall2_length].
Qed.

Lemma renderer_after_failed_submission_witness :
  ~ blank (FormData.location Sample.miami)
  /\ let run :=
       handleSubmit Sample.apiKey Sample.JSON_parse Sample.down Sample.busy
         (Sample.world Sample.miami) in
     gisData (ui run.2) = None
     /\ length
          (markersRef
             (render_all (gisData_updates (added (Sample.world Sample.miami) run.2))
                (render_all [Some Sample.result] mountedMap))) = 2.
Proof.
  assert (B : ~ blank (FormData.location Sample.miami))
    by (by apply not_blank_cons).
  split; [exact B|].
  pose proof (renderer_after_failed_submission Sample.apiKey Sample.JSON_parse
                Sample.down Sample.busy [Some Sample.result]
                (Sample.world Sample.miami) _ _ _ B eq_refl eq_refl eq_refl)
    as (_ & G & _ & _ & _ & L).
  cbv zeta. split; [exact G | exact L].
Defined.

(** ** The build plugin *)

Lemma match_dot_js_suffix (id : jsstring) :
  match_dot_js id = true <-> exists stem, id = stem ++ js ".js".
Proof.
  split.
  - induction id as [|c id IH].
    + intros H. by vm_compute in H.
    + change (match_dot_js (c :: id))
        with (bool_decide (c :: id = js ".js") || match_dot_js id).
      intros [H%bool_decide_eq_true | H]%orb_true_iff.
      * by exists [].
      * destruct (IH H) as [stem ->]. by exists (c :: stem).
  - intros [stem ->]. induction stem as [|c stem IH].
    + by vm_compute.
    + change (match_dot_js ((c :: stem) ++ js ".js"))
        with (bool_decide ((c :: stem) ++ js ".js" = js ".js")
              || match_dot_js (stem ++ js ".js")).
      rewrite IH. apply orb_true_r.
Qed.

(** X18: the plugin hands a module to esbuild exactly when its id ends in
    [.js], with the code and the id as they came and the loader [jsx]; any
    other id, such as one ending in [.jsx] or carrying a query after
    [.js], gets [null]. *)
Theorem transform_only_dot_js (code id : jsstring) :
  (is_Some (transform code id) <-> exists stem, id = stem ++ js ".js")
  /\ (transform code id = None
      \/ transform code id
         = Some (mkEsbuildCall code id (js "jsx") (js "automatic"))).
Proof.
  unfold transform. rewrite <- match_dot_js_suffix.
  destruct (match_dot_js id); simpl.
  - split; [by split; [|eauto] | by right].
  - split; [split; [by intros [? ?] | done] | by left].
Qed.

Example transform_skips_jsx_and_queries :
  transform (js "x") (js "src/main.jsx") = None
  /\ transform (js "x") (js "src/index.js?v=1") = None
  /\ is_Some (transform (js "x") (js "src/index.js")).
Proof. split; [done|]. split; [done|]. by eexists. Qed.

(** ** More of the client and of the form *)

Section ClientFacts.

Variable apiKey : jsstring.
Variable JSON_parse : jsstring -> option GisData.t.
Variable server : nat -> Reply.
Variable meanwhile : nat -> list UiEvent.

(** X19: an attempt returns a result exactly when the request resolves
    with a status from 200 to 299, a body that is JSON and not [null], a
    candidate text that is there, and [JSON.parse] accepts the text; then
    it returns what [JSON.parse] gives.  Anything else throws. *)
Theorem attempt_succeeds_iff (prompt : jsstring) (w : World) (v : GisData.t) :
  (attempt apiKey JSON_parse server meanwhile prompt w).1 = Normal v
  <-> exists st text,
        server (fetches w)
        = Resolves (mkResponse st (Some (JsonValue (Some text))))
        /\ (200 <= st <= 299)%N
        /\ JSON_parse text = Some v.
Proof.
  destruct (attempt_spec apiKey JSON_parse server meanwhile prompt w)
    as (w' & es & -> & _).
  simpl fst. split.
  - destruct (server (fetches w)) as [e|[st body]]; simpl; [done|].
    unfold ok. simpl.
    destruct (N.leb_spec 200 st), (N.leb_spec st 299); simpl; try done.
    destruct body as [[|[text|]]|]; simpl; try done.
    destruct (JSON_parse text) as [v'|] eqn:P; [|done].
    intros [= ->]. exists st, text. by repeat split.
  - intros (st & text & -> & [H1 H2] & P). simpl. unfold ok. simpl.
    rewrite (proj2 (N.leb_le _ _) H1), (proj2 (N.leb_le _ _) H2). simpl.
    by rewrite P.
Qed.

(** X20: [callGeminiWithRetry] calls no state setter: its own entries are
    requests and timers, and it leaves the loading flag, the result and the
    error as they were. *)
Theorem client_calls_no_setter (prompt : jsstring) (w : World) :
  let run := callGeminiWithRetry apiKey JSON_parse server meanwhile prompt w in
  Forall calls_no_setter (added w run.2)
  /\ loading (ui run.2) = loading (ui w)
  /\ gisData (ui run.2) = gisData (ui w)
  /\ error (ui run.2) = error (ui w).
Proof.
  intros run. subst run.
  destruct (callGeminiWithRetry_spec apiKey JSON_parse server meanwhile prompt w)
    as (w' & l & E & X & O).
  rewrite E. simpl snd. rewrite (extends_added _ _ _ X).
  split.
  - apply Forall_own; [done|]. rewrite O.
    destruct (settle JSON_parse (server (fetches w))),
      (settle JSON_parse (server (S (fetches w)))),
      (settle JSON_parse (server (S (S (fetches w))))); simpl; repeat constructor.
  - destruct X as (_ & U & _).
    assert (C : controlled (ui w') = controlled (ui w)).
    { rewrite U, (controlled_replay_own _ _ (ui w)) by done. rewrite O.
      by rewrite policy_quiet. }
    revert C. unfold controlled. by intros [= -> -> ->].
Qed.

End ClientFacts.

(** X21: change events compose as one expects of a form: on two different
    controls they commute, and on one control the later value wins. *)
Theorem changes_compose (c1 c2 : Control) (v1 v2 : jsstring) (st : AppState) :
  let change c v := apply_setter (handleInputChange (mkChange (control_name c) v)) in
  (c1 <> c2 -> change c1 v1 (change c2 v2 st) = change c2 v2 (change c1 v1 st))
  /\ change c1 v1 (change c1 v2 st) = change c1 v1 st.
Proof.
  destruct st as [[l d t a b] ld g e h].
  split; [by intros H; destruct c1, c2 | by destruct c1].
Qed.

(** ** The error, in every state *)

Lemma words_error_replay l st :
  Forall words_error l ->
  error st ∈ own_messages -> error (replay l st) ∈ own_messages.
Proof.
  revert st. induction l as [|e l IH]; intros st H Hst; [done|].
  apply Forall_cons in H as [He Hl].
  change (replay (e :: l) st) with (replay l (replay_entry st e)).
  apply IH; [done|]. destruct e as [|[]| | |[]]; done.
Qed.

Lemma handleSubmit_words_error apiKey JSON_parse server meanwhile w0 :
  Forall words_error
    (added w0 (handleSubmit apiKey JSON_parse server meanwhile w0).2).
Proof.
  destruct (handleSubmit_run apiKey JSON_parse server meanwhile w0)
    as (w' & E & _ & O).
  rewrite E. simpl snd. apply Forall_own; [done|]. rewrite O.
  unfold own_messages.
  destruct (decide (blank _)).
  - by repeat constructor.
  - destruct (settle JSON_parse (server (fetches w0))),
      (settle JSON_parse (server (S (fetches w0)))),
      (settle JSON_parse (server (S (S (fetches w0)))));
      simpl; by repeat constructor.
Qed.

(** X22: in every reachable state the error is [null], the validation
    message or the connection message: no state of the page, not even one
    in the middle of a submission, holds the message of an error that an
    attempt threw. *)
Theorem error_is_always_worded (st : AppState) :
  reachable st -> error st ∈ own_messages.
Proof.
  induction 1 as [|st e R IH|st apiKey JSON_parse server meanwhile k a n R IH D].
  - unfold own_messages. set_solver.
  - by destruct e.
  - apply words_error_replay; [|done]. apply Forall_take.
    apply (handleSubmit_words_error apiKey JSON_parse server meanwhile
             (mkWorld st [] k a)).
Qed.

Lemma error_is_always_worded_witness :
  let typed :=
    apply_setter (ui_setter (Change LocationInput (js "Miami, FL"))) initialState in
  let failed :=
    replay
      (log (handleSubmit Sample.apiKey Sample.JSON_parse Sample.down
              Sample.busy (mkWorld typed [] 0 0)).2)
      typed in
  reachable failed /\ error failed ∈ own_messages.
Proof.
  cbv zeta.
  set (typed := apply_setter (ui_setter (Change LocationInput (js "Miami, FL")))
                  initialState).
  set (l := log (handleSubmit Sample.apiKey Sample.JSON_parse Sample.down
                   Sample.busy (mkWorld typed [] 0 0)).2).
  assert (R : reachable (replay l typed)).
  { rewrite <- (take_ge l (length l)) by done.
    apply reachable_submit; [|done]. apply reachable_ui, reachable_initial. }
  split; [exact R|]. exact (error_is_always_worded _ R).
Defined.
